(** * pykafka BalancedConsumer: partition assignment and rebalancing

    A shallow embedding of [kafka/pykafka/balancedconsumer.py] (Python 2:
    the source uses [xrange], so [/] on ints is floor division).

    - Python ints are [Z]; [len] is [Z.of_nat (length _)].
    - Python [str] is [string], compared bytewise ([String.leb]).
    - [set] is [gset]; the dict [topic.partitions] is a [gmap].
    - Exceptions are the [Raise] case of [result]; a raising call keeps
      the mutations it made before raising, as in Python.
    - ZooKeeper (kazoo) is outside the repository: the methods are
      written over an arbitrary coordination service (the class [World]),
      and a concrete in-memory store is given for running them. *)

From stdpp Require Import gmap strings list sorting pretty.
From Stdlib Require Import ZArith Lia Ascii.

Local Open Scope string_scope.
Local Open Scope list_scope.
Local Open Scope Z_scope.

(** ** Data model *)

(** [kafka.pykafka.partition.Partition], as far as this file reads it:
    [p.topic.name], [p.leader.id] and [p.id]. Two partitions are equal
    iff all three agree. *)
Record Partition := mkPartition {
  partition_topic_name : string;
  partition_leader_id : Z;
  partition_id : Z
}.

Global Instance Partition_eq_dec : EqDecision Partition.
Proof. solve_decision. Defined.

Global Instance Partition_countable : Countable Partition.
Proof.
  refine (inj_countable'
    (fun p => (partition_topic_name p, partition_leader_id p, partition_id p))
    (fun t => mkPartition t.1.1 t.1.2 t.2) _).
  by intros [].
Defined.

(** [kafka.pykafka.topic.Topic]: [name] and the dict [partitions]
    (partition id -> Partition). *)
Record Topic := mkTopic {
  topic_name : string;
  topic_partitions : gmap Z Partition
}.

Global Instance Topic_eq_dec : EqDecision Topic.
Proof. solve_decision. Defined.

(** The cluster handle is only handed on to the inner consumer. *)
Inductive Cluster := ClusterHandle (hosts : string).

Global Instance Cluster_eq_dec : EqDecision Cluster.
Proof. solve_decision. Defined.

(** The arguments [SimpleConsumer(...)] is constructed with. *)
Record SimpleConsumer := mkSimpleConsumer {
  sc_topic : Topic;
  sc_cluster : Cluster;
  sc_consumer_group : string;
  sc_partitions : list Partition;
  sc_auto_commit_enable : bool;
  sc_auto_commit_interval_ms : Z;
  sc_socket_timeout_ms : Z
}.

Global Instance SimpleConsumer_eq_dec : EqDecision SimpleConsumer.
Proof. solve_decision. Defined.

(** The attributes of a [BalancedConsumer] instance. *)
Record BalancedConsumer := mkBalancedConsumer {
  _cluster : Cluster;
  _consumer_group : string;
  _topic : Topic;
  _auto_commit_enable : bool;
  _auto_commit_interval_ms : Z;
  _socket_timeout_ms : Z;
  _consumer : option SimpleConsumer;
  _id : string;
  _partitions : gset Partition;
  _setting_watches : bool;
  _rebalance_retries : Z;
  _topic_path : string;
  _id_path : string
}.

Global Instance BalancedConsumer_eq_dec : EqDecision BalancedConsumer.
Proof. solve_decision. Defined.

Inductive exn :=
  | NoNodeException
  | NodeExistsError
  | ValueError
  | ZeroDivisionError
  | AssertionError
  | OtherException (msg : string).

Global Instance exn_eq_dec : EqDecision exn.
Proof. solve_decision. Defined.

Inductive result (A : Type) :=
  | Ok (a : A)
  | Raise (e : exn).
Arguments Ok {A} a.
Arguments Raise {A} e.

Global Instance result_eq_dec {A} `{EqDecision A} : EqDecision (result A).
Proof. solve_decision. Defined.

(** ** Python builtins used by the source *)

Definition len {A} (l : list A) : Z := Z.of_nat (length l).

(** [str(n)] for an int. *)
Definition str (n : Z) : string := pretty n.

(** [sep.join(ls)] *)
Definition join (sep : string) (ls : list string) : string := String.concat sep ls.

(** [l.index(x)]: position of the first occurrence, [ValueError] if none. *)
Fixpoint index {A} `{EqDecision A} (x : A) (l : list A) : result Z :=
  match l with
  | [] => Raise ValueError
  | y :: l' =>
      if decide (y = x) then Ok 0
      else match index x l' with
           | Ok i => Ok (i + 1)
           | Raise e => Raise e
           end
  end.

(** [l.sort(key=key)]: a stable sort on byte strings. Insertion from the
    right keeps the first of two equal keys first. *)
Fixpoint insert_by_key {A} (key : A -> string) (x : A) (l : list A) : list A :=
  match l with
  | [] => [x]
  | y :: l' =>
      if String.leb (key x) (key y) then x :: y :: l'
      else y :: insert_by_key key x l'
  end.

Fixpoint sort_by_key {A} (key : A -> string) (l : list A) : list A :=
  match l with
  | [] => []
  | x :: l' => insert_by_key key x (sort_by_key key l')
  end.

(** [itertools.islice(l, start, stop)], consumed into a list: the items
    whose position [k] satisfies [start <= k < stop]. *)
Fixpoint islice_from {A} (k : Z) (l : list A) (start stop : Z) : list A :=
  match l with
  | [] => []
  | x :: l' =>
      if stop <=? k then []
      else if start <=? k then x :: islice_from (k + 1) l' start stop
      else islice_from (k + 1) l' start stop
  end.

Definition islice {A} (l : list A) (start stop : Z) : list A :=
  islice_from 0 l start stop.

(** [d.values()] of a dict. *)
Definition dict_values {A} (d : gmap Z A) : list A := (map_to_list d).*2.

(** ** [_decide_partitions] *)

(** [p_to_str = lambda p: '-'.join([p.topic.name, str(p.leader.id), str(p.id)])] *)
Definition p_to_str (p : Partition) : string :=
  join "-" [partition_topic_name p; str (partition_leader_id p); str (partition_id p)].

(** [all_partitions = list(self._topic.partitions.values());
    all_partitions.sort(key=p_to_str)] *)
Definition all_partitions (t : Topic) : list Partition :=
  sort_by_key p_to_str (dict_values (topic_partitions t)).

(** The method reads [self._id] and [self._topic] only; its [log.info]
    call is left out. *)
Definition decide_partitions (self_id : string) (t : Topic)
    (participants : list string) : result (gset Partition) :=
  let all := all_partitions t in
  match index self_id participants with
  | Raise e => Raise e
  | Ok idx =>
      if len participants =? 0 then Raise ZeroDivisionError else
      let parts_per_consumer := len all / len participants in
      let remainder_ppc := len all mod len participants in
      let start := parts_per_consumer * idx + Z.min idx remainder_ppc in
      let num_parts :=
        parts_per_consumer + (if idx + 1 >? remainder_ppc then 0 else 1) in
      let new_partitions := islice all start (start + num_parts) in
      Ok (list_to_set new_partitions)
  end.


(** ** Programs over a coordination service *)

(** What is observable from outside the object, in program order. *)
Inductive Event :=
  | EvGetChildren (path : string)
  | EvGet (path : string)
  | EvCreate (path value : string) (ephemeral makepath : bool)
  | EvDelete (path : string)
  | EvEnsurePath (path : string)
  | EvChildrenWatch (path : string)
  | EvSleep (seconds : Z)
  | EvLogRetry (seconds : Z)
  | EvConsumerStop (c : SimpleConsumer)
  | EvConsumerNew (c : SimpleConsumer).

Global Instance Event_eq_dec : EqDecision Event.
Proof. solve_decision. Defined.

(** The calls the source makes on [self._zookeeper] (a [KazooClient]),
    [ChildrenWatch] and [time.sleep]. [W] is everything outside the
    object: every call may change it, which is how other members of the
    group act between two calls of this one. *)
Class World (W : Type) := {
  zk_get_children : string -> W -> result (list string) * W;
  zk_get : string -> W -> result string * W;
  zk_create : string -> string -> bool -> bool -> W -> result unit * W;
  zk_delete : string -> W -> result unit * W;
  zk_ensure_path : string -> W -> result unit * W;
  zk_children_watch : string -> W -> result (list string) * W;
  time_sleep : Z -> W -> W
}.

Record State (W : Type) := mkState {
  self : BalancedConsumer;
  world : W;
  trace : list Event
}.
Arguments mkState {W}.
Arguments self {W}.
Arguments world {W}.
Arguments trace {W}.

Global Instance State_eq_dec {W} `{EqDecision W} : EqDecision (State W).
Proof. solve_decision. Defined.

Definition M (W A : Type) : Type := State W -> result A * State W.

Global Instance M_ret {W} : MRet (M W) := fun A a st => (Ok a, st).
Global Instance M_bind {W} : MBind (M W) := fun A B f m st =>
  match m st with
  | (Ok a, st') => f a st'
  | (Raise e, st') => (Raise e, st')
  end.

Definition raise {W A} (e : exn) : M W A := fun st => (Raise e, st).

Definition lift {W A} (r : result A) : M W A := fun st => (r, st).

(** [try: body except <the exceptions handler answers>: ...]; an
    exception the handler gives [None] for goes on up. *)
Definition try_except {W A} (body : M W A) (handler : exn -> option (M W A))
    : M W A := fun st =>
  match body st with
  | (Ok a, st') => (Ok a, st')
  | (Raise e, st') =>
      match handler e with
      | Some h => h st'
      | None => (Raise e, st')
      end
  end.

Definition get_self {W} : M W BalancedConsumer := fun st => (Ok (self st), st).

Definition set_self {W} (f : BalancedConsumer -> BalancedConsumer) : M W unit :=
  fun st => (Ok tt, mkState (f (self st)) (world st) (trace st)).

Definition emit {W} (e : Event) : M W unit :=
  fun st => (Ok tt, mkState (self st) (world st) (trace st ++ [e])).

Definition call {W A} (e : Event) (op : W -> result A * W) : M W A :=
  fun st =>
    let (r, w) := op (world st) in
    (r, mkState (self st) w (trace st ++ [e])).

Definition with_partitions (ps : gset Partition) (s : BalancedConsumer) :=
  mkBalancedConsumer (_cluster s) (_consumer_group s) (_topic s)
    (_auto_commit_enable s) (_auto_commit_interval_ms s) (_socket_timeout_ms s)
    (_consumer s) (_id s) ps (_setting_watches s) (_rebalance_retries s)
    (_topic_path s) (_id_path s).

Definition with_consumer (c : option SimpleConsumer) (s : BalancedConsumer) :=
  mkBalancedConsumer (_cluster s) (_consumer_group s) (_topic s)
    (_auto_commit_enable s) (_auto_commit_interval_ms s) (_socket_timeout_ms s)
    c (_id s) (_partitions s) (_setting_watches s) (_rebalance_retries s)
    (_topic_path s) (_id_path s).

Definition with_setting_watches (b : bool) (s : BalancedConsumer) :=
  mkBalancedConsumer (_cluster s) (_consumer_group s) (_topic s)
    (_auto_commit_enable s) (_auto_commit_interval_ms s) (_socket_timeout_ms s)
    (_consumer s) (_id s) (_partitions s) b (_rebalance_retries s)
    (_topic_path s) (_id_path s).

(** ** The methods of [BalancedConsumer] *)

Section Methods.
Context {W : Type} `{World W}.

  (** [if self._consumer is not None: self._consumer.stop()], then a new
      [SimpleConsumer] over [list(self._partitions)]. The two calls are
      recorded in the trace and taken to return: an exception out of
      [stop()] or out of the constructor is not modelled, so what is proved
      of this method is about the calls it makes and the consumer it holds
      once they have returned. *)
Definition _setup_internal_consumer : M W unit :=
    s ← get_self;
    match _consumer s with
    | Some c => emit (EvConsumerStop c)
    | None => mret tt
    end;;
    s ← get_self;
    let c := mkSimpleConsumer (_topic s) (_cluster s) (_consumer_group s)
               (elements (_partitions s)) (_auto_commit_enable s)
               (_auto_commit_interval_ms s) (_socket_timeout_ms s) in
    emit (EvConsumerNew c);;
    set_self (with_consumer (Some c)).

Definition _decide_partitions (participants : list string)
      : M W (gset Partition) :=
    s ← get_self;
    lift (decide_partitions (_id s) (_topic s) participants).

  (** The body of [for id_ in consumer_ids:], with the list built so far. *)
Fixpoint get_participants_loop (consumer_ids participants : list string)
      : M W (list string) :=
    match consumer_ids with
    | [] => mret participants
    | id_ :: rest =>
        participants ←
          try_except
            (s ← get_self;
             let path := _id_path s +:+ "/" +:+ id_ in
             topic ← call (EvGet path) (zk_get path);
             if decide (topic = topic_name (_topic s))
             then mret (participants ++ [id_])
             else mret participants)
            (fun e => match e with
                      | NoNodeException => Some (mret participants)
                      | _ => None
                      end);
        get_participants_loop rest participants
    end.

Definition _get_participants : M W (list string) :=
    s ← get_self;
    consumer_ids ←
      try_except
        (ids ← call (EvGetChildren (_id_path s)) (zk_get_children (_id_path s));
         mret (Some ids))
        (fun e => match e with
                  | NoNodeException => Some (mret None)
                  | _ => None
                  end);
    match consumer_ids with
    | None => mret []
    | Some consumer_ids =>
        participants ← get_participants_loop consumer_ids [];
        mret (sort_by_key (fun x => x) participants)
    end.

Definition _add_self : M W unit :=
    participants ← _get_participants;
    s ← get_self;
    if Z.of_nat (size (topic_partitions (_topic s))) <=? len participants
    then mret tt
    else
      let path := _id_path s +:+ "/" +:+ _id s in
      call (EvCreate path (topic_name (_topic s)) true true)
           (zk_create path (topic_name (_topic s)) true true).

  (** ["%s/%s-%s" % (self._topic_path, p.leader.id, p.id)] *)
Definition _path_from_partition (s : BalancedConsumer) (p : Partition)
      : string :=
    _topic_path s +:+ "/" +:+ str (partition_leader_id p)
      +:+ "-" +:+ str (partition_id p).

Fixpoint remove_partitions_loop (ps : list Partition) : M W unit :=
    match ps with
    | [] => mret tt
    | p :: rest =>
        s ← get_self;
        (if decide (p ∈ _partitions s) then mret tt
         else raise AssertionError);;
        call (EvDelete (_path_from_partition s p))
             (zk_delete (_path_from_partition s p));;
        remove_partitions_loop rest
    end.

Definition _remove_partitions (partitions : gset Partition) : M W unit :=
    remove_partitions_loop (elements partitions);;
    s ← get_self;
    set_self (with_partitions (_partitions s ∖ partitions)).

Fixpoint add_partitions_loop (ps : list Partition) : M W unit :=
    match ps with
    | [] => mret tt
    | p :: rest =>
        s ← get_self;
        call (EvCreate (_path_from_partition s p) (_id s) true false)
             (zk_create (_path_from_partition s p) (_id s) true false);;
        add_partitions_loop rest
    end.

Definition _add_partitions (partitions : gset Partition) : M W unit :=
    add_partitions_loop (elements partitions);;
    s ← get_self;
    set_self (with_partitions
                (_partitions s ∪ (partitions ∖ _partitions s))).

Inductive flow := Break | Continue.

Global Instance flow_eq_dec : EqDecision flow.
Proof. solve_decision. Defined.

  (** One turn of [for i in xrange(self._rebalance_retries):]. It gives
      the values of [participants] and [new_partitions] after the turn and
      whether the loop goes on. *)
Definition rebalance_attempt (i : Z) (participants : list string)
      (new_partitions : gset Partition)
      : M W (flow * list string * gset Partition) :=
    '(participants, new_partitions) ←
      (if 0 <? i then
         emit (EvLogRetry ((i + 1) ^ 2));;
         call (EvSleep (i ^ 2)) (fun w => (Ok tt, time_sleep (i ^ 2) w));;
         participants ← _get_participants;
         new_partitions ← _decide_partitions participants;
         mret (participants, new_partitions)
       else mret (participants, new_partitions));
    s ← get_self;
    _remove_partitions (_partitions s ∖ new_partitions);;
    try_except
      (s ← get_self;
       _add_partitions (new_partitions ∖ _partitions s);;
       mret (Break, participants, new_partitions))
      (fun e => match e with
                | NodeExistsError =>
                    Some (mret (Continue, participants, new_partitions))
                | _ => None
                end).

Fixpoint rebalance_loop (indices : list Z) (participants : list string)
      (new_partitions : gset Partition) : M W unit :=
    match indices with
    | [] => mret tt
    | i :: rest =>
        '(fl, participants, new_partitions) ←
          rebalance_attempt i participants new_partitions;
        match fl with
        | Break => mret tt
        | Continue => rebalance_loop rest participants new_partitions
        end
    end.

Definition xrange (n : Z) : list Z := seqZ 0 n.

Definition _rebalance : M W unit :=
    participants ← _get_participants;
    new_partitions ← _decide_partitions participants;
    s ← get_self;
    rebalance_loop (xrange (_rebalance_retries s)) participants new_partitions;;
    _setup_internal_consumer.

Definition _brokers_changed (brokers : list string) : M W unit :=
    s ← get_self;
    if _setting_watches s then mret tt else _rebalance.

Definition _consumers_changed (consumers : list string) : M W unit :=
    s ← get_self;
    if _setting_watches s then mret tt else _rebalance.

Definition _topics_changed (topics : list string) : M W unit :=
    s ← get_self;
    if _setting_watches s then mret tt else _rebalance.

  (** [ChildrenWatch(client, path, func)]: kazoo calls [func] with the
      children at once; later firings are later calls of [func]. *)
Definition ChildrenWatch (path : string) (func : list string -> M W unit)
      : M W unit :=
    children ← call (EvChildrenWatch path) (zk_children_watch path);
    func children.

Definition _set_watches : M W unit :=
    set_self (with_setting_watches true);;
    let broker_path := "/brokers/ids" in
    try_except
      (ChildrenWatch broker_path _brokers_changed)
      (fun e => match e with
                | NoNodeException =>
                    Some (raise (OtherException
                      "The broker_path does not exist in your ZooKeeper cluster"))
                | _ => None
                end);;
    ChildrenWatch "/brokers/topics" _topics_changed;;
    s ← get_self;
    ChildrenWatch (_id_path s) _consumers_changed;;
    set_self (with_setting_watches false).

  (** [__init__], with the value of [socket.gethostname():uuid4()] given
      as [fresh_id]. Opening the connection and the signal handler are
      left out. *)
Definition __init__ (topic : Topic) (cluster : Cluster)
      (consumer_group : string) (auto_commit_enable : bool)
      (auto_commit_interval_ms socket_timeout_ms : Z) (fresh_id : string)
      (w : W) : result unit * State W :=
    let s := mkBalancedConsumer cluster consumer_group topic
               auto_commit_enable auto_commit_interval_ms socket_timeout_ms
               None fresh_id ∅ true 5
               ("/consumers/" +:+ consumer_group +:+ "/owners/"
                  +:+ topic_name topic)
               ("/consumers/" +:+ consumer_group +:+ "/ids") in
    (call (EvEnsurePath (_topic_path s)) (zk_ensure_path (_topic_path s));;
     _add_self;;
     _set_watches;;
     _rebalance) (mkState s w []).

End Methods.

(** ** An in-memory coordination store

    A model of the store the methods talk to, after the behaviour the
    source relies on: [create] fails with [NodeExistsError] on a node that
    is there, [delete], [get] and [get_children] fail with
    [NoNodeException] on one that is not. Other members of the group act
    between the calls of this one: after every call, and during every
    [time.sleep], the next batch of [pending] is applied. *)

Inductive EnvAction :=
  | EnvCreate (path value : string)
  | EnvDelete (path : string).

Global Instance EnvAction_eq_dec : EqDecision EnvAction.
Proof. solve_decision. Defined.

Record Store := mkStore {
  nodes : gmap string string;
  pending : list (list EnvAction)
}.

Global Instance Store_eq_dec : EqDecision Store.
Proof. solve_decision. Defined.

Fixpoint strip_prefix (pre s : string) : option string :=
  match pre, s with
  | EmptyString, _ => Some s
  | String a pre', String b s' =>
      if decide (a = b) then strip_prefix pre' s' else None
  | String _ _, EmptyString => None
  end.

Fixpoint has_slash (s : string) : bool :=
  match s with
  | EmptyString => false
  | String a s' => if decide (a = "/"%char) then true else has_slash s'
  end.

(** The proper prefixes of [s] that end just before a ["/"], given the
    reversed characters read so far; the root is left out. *)
Fixpoint ancestors_from (seen : string) (s : string) : list string :=
  match s with
  | EmptyString => []
  | String a s' =>
      let here := if decide (a = "/"%char)
                  then (if decide (seen = "") then [] else [seen])
                  else [] in
      here ++ ancestors_from (seen +:+ String a EmptyString) s'
  end.

Definition ancestors (path : string) : list string := ancestors_from "" path.

Definition store_children (path : string) (m : gmap string string)
    : list string :=
  omap (fun kv => match strip_prefix (path +:+ "/") kv.1 with
                  | Some name =>
                      if has_slash name then None
                      else if decide (name = "") then None else Some name
                  | None => None
                  end) (map_to_list m).

Definition store_make_path (path : string) (m : gmap string string)
    : gmap string string :=
  foldl (fun m a => match m !! a with
                    | Some _ => m
                    | None => <[a := ""]> m
                    end) m (ancestors path).

Definition parent_present (path : string) (m : gmap string string) : bool :=
  match last (ancestors path) with
  | None => true
  | Some a => bool_decide (is_Some (m !! a))
  end.

Definition apply_env (m : gmap string string) (a : EnvAction)
    : gmap string string :=
  match a with
  | EnvCreate path value => <[path := value]> m
  | EnvDelete path => delete path m
  end.

(** The other members take their next step. *)
Definition tick (m : gmap string string) (pend : list (list EnvAction))
    : Store :=
  match pend with
  | [] => mkStore m []
  | batch :: rest => mkStore (foldl apply_env m batch) rest
  end.

Definition store_get_children (path : string) (w : Store)
    : result (list string) * Store :=
  match nodes w !! path with
  | Some _ => (Ok (store_children path (nodes w)), tick (nodes w) (pending w))
  | None => (Raise NoNodeException, tick (nodes w) (pending w))
  end.

Definition store_get (path : string) (w : Store) : result string * Store :=
  match nodes w !! path with
  | Some v => (Ok v, tick (nodes w) (pending w))
  | None => (Raise NoNodeException, tick (nodes w) (pending w))
  end.

Definition store_create (path value : string) (ephemeral makepath : bool)
    (w : Store) : result unit * Store :=
  match nodes w !! path with
  | Some _ => (Raise NodeExistsError, tick (nodes w) (pending w))
  | None =>
      if parent_present path (nodes w)
      then (Ok tt, tick (<[path := value]> (nodes w)) (pending w))
      else if makepath
      then (Ok tt, tick (<[path := value]> (store_make_path path (nodes w)))
                        (pending w))
      else (Raise NoNodeException, tick (nodes w) (pending w))
  end.

Definition store_delete (path : string) (w : Store) : result unit * Store :=
  match nodes w !! path with
  | Some _ => (Ok tt, tick (delete path (nodes w)) (pending w))
  | None => (Raise NoNodeException, tick (nodes w) (pending w))
  end.

Definition store_ensure_path (path : string) (w : Store)
    : result unit * Store :=
  let m := store_make_path path (nodes w) in
  (Ok tt, tick (match m !! path with
                | Some _ => m
                | None => <[path := ""]> m
                end) (pending w)).

Definition store_sleep (seconds : Z) (w : Store) : Store :=
  tick (nodes w) (pending w).

Global Instance Store_World : World Store := {
  zk_get_children := store_get_children;
  zk_get := store_get;
  zk_create := store_create;
  zk_delete := store_delete;
  zk_ensure_path := store_ensure_path;
  zk_children_watch := store_get_children;
  time_sleep := store_sleep
}.

(** ** Definitions used to state the properties *)

(** [l[a:b]] for [0 <= a]. *)
Definition slice {A} (l : list A) (a b : Z) : list A :=
  take (Z.to_nat (b - a)) (drop (Z.to_nat a) l).

(** The order [l.sort(key=key)] sorts by. *)
Definition key_le {A} (key : A -> string) (x y : A) : Prop :=
  String.leb (key x) (key y) = true.

(** The range of the spec: [base = floor(n / m)], [rem = n mod m],
    [start = base * i + min(i, rem)], [count = base + (1 if i < rem else 0)]. *)
Definition range_start (n m i : Z) : Z := (n / m) * i + Z.min i (n mod m).

Definition range_count (n m i : Z) : Z :=
  n / m + (if i <? n mod m then 1 else 0).

(** The share of the peer at index [i] of [participants]. *)
Definition share (t : Topic) (participants : list string) (i : nat)
    : gset Partition :=
  list_to_set (slice (all_partitions t)
    (range_start (len (all_partitions t)) (len participants) (Z.of_nat i))
    (range_start (len (all_partitions t)) (len participants) (Z.of_nat i)
     + range_count (len (all_partitions t)) (len participants) (Z.of_nat i))).

(** The dict [topic.partitions] maps each partition id to the partition
    with that id. *)
Definition topic_wf (t : Topic) : Prop :=
  forall k p, topic_partitions t !! k = Some p -> partition_id p = k.

Definition is_Ok {A} (r : result A) : bool :=
  match r with Ok _ => true | Raise _ => false end.

Section Runs.
Context {W : Type} `{World W}.

(** What the store answers to [get] on each child in turn. *)
Fixpoint observe (id_path : string) (ids : list string) (w : W)
    : list (string * result string) * W :=
  match ids with
  | [] => ([], w)
  | id_ :: rest =>
      let (r, w1) := zk_get (id_path +:+ "/" +:+ id_) w in
      let (obs, w2) := observe id_path rest w1 in
      ((id_, r) :: obs, w2)
  end.

(** [delete] on each path in turn, up to the first failure; the number
    counts the calls made. *)
Fixpoint run_deletes (paths : list string) (w : W) : result unit * W * nat :=
  match paths with
  | [] => (Ok tt, w, 0%nat)
  | path :: rest =>
      match zk_delete path w with
      | (Ok _, w1) =>
          let '(r, w2, k) := run_deletes rest w1 in (r, w2, S k)
      | (Raise e, w1) => (Raise e, w1, 1%nat)
      end
  end.

(** [create(path, value, ephemeral=True)] on each path in turn, up to the
    first failure. *)
Fixpoint run_creates (value : string) (paths : list string) (w : W)
    : result unit * W * nat :=
  match paths with
  | [] => (Ok tt, w, 0%nat)
  | path :: rest =>
      match zk_create path value true false w with
      | (Ok _, w1) =>
          let '(r, w2, k) := run_creates value rest w1 in (r, w2, S k)
      | (Raise e, w1) => (Raise e, w1, 1%nat)
      end
  end.

End Runs.

(** A payload read is a success or a node that is gone. *)
Definition benign (o : string * result string) : Prop :=
  match o.2 with
  | Ok _ => True
  | Raise NoNodeException => True
  | Raise _ => False
  end.

Global Instance benign_dec o : Decision (benign o).
Proof. unfold benign. destruct (o.2) as [v|[]]; apply _. Defined.

(** The child is registered for [topic]. *)
Definition registered_for (topic : string) (o : string * result string)
    : bool :=
  match o.2 with
  | Ok v => bool_decide (v = topic)
  | Raise _ => false
  end.

Definition is_read (e : Event) : bool :=
  match e with
  | EvGetChildren _ | EvGet _ => true
  | _ => false
  end.

Definition is_retry_event (e : Event) : bool :=
  match e with
  | EvSleep _ | EvLogRetry _ => true
  | _ => false
  end.

Definition delete_events (s : BalancedConsumer) (ps : gset Partition)
    : list Event :=
  map (fun p => EvDelete (_path_from_partition s p)) (elements ps).

Definition create_events (s : BalancedConsumer) (ps : gset Partition)
    : list Event :=
  map (fun p => EvCreate (_path_from_partition s p) (_id s) true false)
      (elements ps).

(** The consumer [_setup_internal_consumer] builds from [s]. *)
Definition consumer_of (s : BalancedConsumer) : SimpleConsumer :=
  mkSimpleConsumer (_topic s) (_cluster s) (_consumer_group s)
    (elements (_partitions s)) (_auto_commit_enable s)
    (_auto_commit_interval_ms s) (_socket_timeout_ms s).

Definition stop_events (s : BalancedConsumer) : list Event :=
  match _consumer s with
  | Some c => [EvConsumerStop c]
  | None => []
  end.

(** The log line and the sleep of the retries [1..k]. *)
Definition retry_schedule (k : Z) : list Event :=
  concat (map (fun i => [EvLogRetry ((i + 1) ^ 2); EvSleep (i ^ 2)])
              (seqZ 1 k)).


(** ** Concrete inputs *)

(** Partition [i] of topic "t", led by broker 1. *)
Definition part (i : Z) : Partition := mkPartition "t" 1 i.

(** Topic "t" with partitions [0..n-1]. *)
Definition topic_t (n : Z) : Topic :=
  mkTopic "t" (list_to_map (map (fun i => (i, part i)) (seqZ 0 n))).

(** A consumer of group "g" as [__init__] sets it up, with the given
    id, owned set and inner consumer. *)
Definition consumer_self (self_id : string) (t : Topic)
    (owned : gset Partition) (c : option SimpleConsumer) : BalancedConsumer :=
  mkBalancedConsumer (ClusterHandle "k") "g" t false 60000 30000 c self_id
    owned false 5 ("/consumers/g/owners/" +:+ topic_name t) "/consumers/g/ids".

Definition inner_consumer (t : Topic) (ps : list Partition) : SimpleConsumer :=
  mkSimpleConsumer t (ClusterHandle "k") "g" ps false 60000 30000.

(** The nodes every scenario starts from. *)
Definition base_nodes : list (string * string) :=
  [("/brokers", ""); ("/brokers/ids", ""); ("/brokers/topics", "");
   ("/consumers", ""); ("/consumers/g", ""); ("/consumers/g/ids", "");
   ("/consumers/g/owners", ""); ("/consumers/g/owners/t", "")].

Definition store_of (extra : list (string * string))
    (pend : list (list EnvAction)) : Store :=
  mkStore (list_to_map (extra ++ base_nodes)) pend.

(** Member "c" of three, seven partitions. *)
Definition st_three_seven : State Store :=
  mkState (consumer_self "c" (topic_t 7) ∅ None) (store_of [] []) [].

(** Member "b" arrives when "a" is registered for the only partition. *)
Definition store_oversubscribed : Store :=
  store_of [("/consumers/g/ids/a", "t")] [].

(** Member "a" holds partitions 0 and 1 and must give up 1 to "b", but
    its ownership node of partition 1 is gone. *)
Definition st_node_gone : State Store :=
  mkState
    (consumer_self "a" (topic_t 2) {[part 0; part 1]}
       (Some (inner_consumer (topic_t 2) [part 0; part 1])))
    (store_of [("/consumers/g/ids/a", "t"); ("/consumers/g/ids/b", "t");
               ("/consumers/g/owners/t/1-0", "a")] [])
    [].

(** Member "a" alone holds both partitions and is woken by a watch. *)
Definition st_settled : State Store :=
  mkState
    (consumer_self "a" (topic_t 2) {[part 0; part 1]}
       (Some (inner_consumer (topic_t 2) [part 0; part 1])))
    (store_of [("/consumers/g/ids/a", "t");
               ("/consumers/g/owners/t/1-0", "a");
               ("/consumers/g/owners/t/1-1", "a")] [])
    [].

(** Member "b" has joined "a", which keeps both ownership nodes. *)
Definition st_contended : State Store :=
  mkState (consumer_self "b" (topic_t 2) ∅ None)
    (store_of [("/consumers/g/ids/a", "t"); ("/consumers/g/ids/b", "t");
               ("/consumers/g/owners/t/1-0", "a");
               ("/consumers/g/owners/t/1-1", "a")] [])
    [].

(** The same, but "a" releases partition 1 while "b" sleeps for the first
    time: the batches before it pass with the three reads and the failed
    [create] of the first attempt. *)
Definition st_contended_once : State Store :=
  mkState (consumer_self "b" (topic_t 2) ∅ None)
    (store_of [("/consumers/g/ids/a", "t"); ("/consumers/g/ids/b", "t");
               ("/consumers/g/owners/t/1-0", "a");
               ("/consumers/g/owners/t/1-1", "a")]
       [[]; []; []; []; [EnvDelete "/consumers/g/owners/t/1-1"]])
    [].

(** Member "b" is about to register next to "a"; two partitions. *)
Definition st_joining : State Store :=
  mkState (consumer_self "b" (topic_t 2) ∅ None)
    (store_of [("/consumers/g/ids/a", "t")] []) [].

(** Four children; "b" is registered for another topic and "c" goes away
    right after the children have been listed. *)
Definition st_race : State Store :=
  mkState (consumer_self "a" (topic_t 2) ∅ None)
    (store_of [("/consumers/g/ids/d", "t"); ("/consumers/g/ids/c", "t");
               ("/consumers/g/ids/b", "u"); ("/consumers/g/ids/a", "t")]
       [[EnvDelete "/consumers/g/ids/c"]])
    [].

(** The group has no registry yet. *)
Definition st_no_group : State Store :=
  mkState (consumer_self "a" (topic_t 2) ∅ None)
    (mkStore (list_to_map [("/brokers", "")]) []) [].

(** Member "b" is to take both partitions; the node of partition 1 is
    still held by "a". *)
Definition st_half_free : State Store :=
  mkState (consumer_self "b" (topic_t 2) ∅ None)
    (store_of [("/consumers/g/ids/b", "t");
               ("/consumers/g/owners/t/1-1", "a")] [])
    [].

(** A [delete] or a [create] on the ownership node of a partition, as
    [_remove_partitions] and [_add_partitions] issue them. *)
Definition ownership_write (s : BalancedConsumer) (e : Event) : Prop :=
  (exists p, e = EvDelete (_path_from_partition s p)) \/
  (exists p, e = EvCreate (_path_from_partition s p) (_id s) true false).

(** What the attempts of a pass do: reads, the retry log and sleep, and
    writes of ownership nodes. *)
Definition pass_event (s : BalancedConsumer) (e : Event) : Prop :=
  is_read e = true \/ is_retry_event e = true \/ ownership_write s e.

Definition is_consumer_event (e : Event) : bool :=
  match e with
  | EvConsumerStop _ | EvConsumerNew _ => true
  | _ => false
  end.

(** The reads and the deletions of the store never answer
    [NodeExistsError]; only [create] does. *)
Definition only_create_clashes (W : Type) `{World W} : Prop :=
  forall path (w : W),
    (zk_get_children path w).1 <> Raise NodeExistsError /\
    (zk_get path w).1 <> Raise NodeExistsError /\
    (zk_delete path w).1 <> Raise NodeExistsError.

(** The message of the exception [_set_watches] raises. *)
Definition broker_path_missing : exn :=
  OtherException "The broker_path does not exist in your ZooKeeper cluster".

Section PassRuns.
Context {W : Type} `{World W}.

(** The body of [_rebalance] without its last statement, the call of
    [_setup_internal_consumer]: the first read, the first decision and the
    loop of attempts. *)
Definition rebalance_until_setup : M W unit :=
  participants ← _get_participants;
  new_partitions ← _decide_partitions participants;
  s ← get_self;
  rebalance_loop (xrange (_rebalance_retries s)) participants new_partitions.


End PassRuns.

(** * Properties *)

(** ** Builtins *)

Lemma islice_from_take {A} (l : list A) k start stop :
  start <= k -> islice_from k l start stop = take (Z.to_nat (stop - k)) l.
Proof.
  revert k. induction l as [|x l IH]; intros k Hk; simpl.
  - by rewrite take_nil.
  - destruct (Z.leb_spec stop k) as [Hs|Hs].
    + replace (Z.to_nat (stop - k)) with 0%nat by lia. done.
    + destruct (Z.leb_spec start k) as [_|?]; [|lia].
      rewrite IH by lia.
      replace (Z.to_nat (stop - k)) with (S (Z.to_nat (stop - (k + 1)))) by lia.
      done.
Qed.

Lemma islice_from_slice {A} (l : list A) k start stop :
  k <= start ->
  islice_from k l start stop
  = take (Z.to_nat (stop - start)) (drop (Z.to_nat (start - k)) l).
Proof.
  revert k. induction l as [|x l IH]; intros k Hk; simpl.
  - by rewrite drop_nil, take_nil.
  - destruct (Z.leb_spec stop k) as [Hs|Hs].
    + replace (Z.to_nat (stop - start)) with 0%nat by lia. done.
    + destruct (Z.leb_spec start k) as [Hk'|Hk'].
      * assert (start = k) as -> by lia.
        rewrite islice_from_take by lia.
        replace (Z.to_nat (k - k)) with 0%nat by lia.
        replace (Z.to_nat (stop - k)) with (S (Z.to_nat (stop - (k + 1)))) by lia.
        done.
      * rewrite IH by lia.
        replace (Z.to_nat (start - k)) with (S (Z.to_nat (start - (k + 1)))) by lia.
        done.
Qed.

Lemma islice_slice {A} (l : list A) start stop :
  0 <= start -> islice l start stop = slice l start stop.
Proof.
  intros. unfold islice, slice. rewrite islice_from_slice by done.
  by rewrite Z.sub_0_r.
Qed.

Lemma index_lookup {A} `{EqDecision A} (x : A) l i :
  index x l = Ok i -> 0 <= i < len l /\ l !! Z.to_nat i = Some x.
Proof.
  revert i. induction l as [|y l IH]; intros i; simpl; [done|].
  unfold len in *. simpl.
  destruct (decide (y = x)) as [->|Hne].
  - intros [= <-]. split; [lia|done].
  - destruct (index x l) as [j|e]; [|done].
    intros [= <-]. destruct (IH j eq_refl) as [Hj Hl].
    split; [lia|].
    replace (Z.to_nat (j + 1)) with (S (Z.to_nat j)) by lia. done.
Qed.

Lemma index_raise {A} `{EqDecision A} (x : A) l e :
  index x l = Raise e -> e = ValueError /\ x ∉ l.
Proof.
  induction l as [|y l IH]; simpl.
  - intros [= <-]. split; [done|]. apply not_elem_of_nil.
  - destruct (decide (y = x)) as [->|Hne]; [done|].
    destruct (index x l) as [j|e']; [done|].
    intros [= <-]. destruct (IH eq_refl) as [-> Hn].
    split; [done|]. rewrite elem_of_cons. by intros [?|?].
Qed.

Lemma index_NoDup {A} `{EqDecision A} (x : A) l (i : nat) :
  NoDup l -> l !! i = Some x -> index x l = Ok (Z.of_nat i).
Proof.
  intros Hnd Hi. destruct (index x l) as [j|e] eqn:E.
  - apply index_lookup in E as [Hj Hl].
    f_equal. pose proof (NoDup_lookup _ _ _ _ Hnd Hi Hl). lia.
  - apply index_raise in E as [_ Hn].
    exfalso. apply Hn. by eapply list_elem_of_lookup_2.
Qed.

Lemma insert_by_key_perm {A} (key : A -> string) x l :
  insert_by_key key x l ≡ₚ x :: l.
Proof.
  induction l as [|y l IH]; simpl; [done|].
  destruct (String.leb _ _); [done|].
  rewrite IH. apply Permutation_swap.
Qed.

Lemma sort_by_key_perm {A} (key : A -> string) l : sort_by_key key l ≡ₚ l.
Proof.
  induction l as [|x l IH]; simpl; [done|].
  by rewrite insert_by_key_perm, IH.
Qed.

Lemma sort_by_key_length {A} (key : A -> string) l :
  length (sort_by_key key l) = length l.
Proof. by rewrite sort_by_key_perm. Qed.

Lemma insert_by_key_sorted {A} (key : A -> string) x l :
  Sorted (key_le key) l -> Sorted (key_le key) (insert_by_key key x l).
Proof.
  induction 1 as [|y l Hs IH Hhd]; simpl.
  - by repeat constructor.
  - destruct (String.leb (key x) (key y)) eqn:E.
    + constructor; [by constructor|]. by constructor.
    + constructor; [done|].
      assert (key_le key y x) as Hyx.
      { unfold key_le. destruct (String.leb_total (key x) (key y)); congruence. }
      destruct Hhd as [|z l Hyz]; simpl.
      * by constructor.
      * destruct (String.leb (key x) (key z)); by constructor.
Qed.

Lemma sort_by_key_sorted {A} (key : A -> string) l :
  Sorted (key_le key) (sort_by_key key l).
Proof.
  induction l as [|x l IH]; simpl; [constructor|].
  by apply insert_by_key_sorted.
Qed.

Lemma sort_by_key_id {A} (key : A -> string) l :
  Sorted (key_le key) l -> sort_by_key key l = l.
Proof.
  induction 1 as [|x l Hs IH Hhd]; simpl; [done|].
  rewrite IH. destruct Hhd as [|y l Hxy]; simpl; [done|].
  unfold key_le in Hxy. by rewrite Hxy.
Qed.

(** ** The assignment decider *)

Lemma range_start_0 n m : 0 < m -> 0 <= n -> range_start n m 0 = 0.
Proof.
  intros. unfold range_start.
  pose proof (Z.mod_pos_bound n m ltac:(lia)). lia.
Qed.

Lemma range_start_succ n m i :
  range_start n m (i + 1) = range_start n m i + range_count n m i.
Proof.
  unfold range_start, range_count.
  destruct (Z.ltb_spec i (n mod m)); lia.
Qed.

Lemma range_start_last n m : 0 < m -> 0 <= n -> range_start n m m = n.
Proof.
  intros. unfold range_start.
  pose proof (Z.mod_pos_bound n m ltac:(lia)).
  pose proof (Z.div_mod n m ltac:(lia)). lia.
Qed.

Lemma range_count_nonneg n m i : 0 < m -> 0 <= n -> 0 <= range_count n m i.
Proof.
  intros. unfold range_count.
  pose proof (Z.div_pos n m ltac:(lia) ltac:(lia)).
  destruct (i <? n mod m); lia.
Qed.

Lemma range_start_nonneg n m i :
  0 < m -> 0 <= n -> 0 <= i -> 0 <= range_start n m i.
Proof.
  intros. unfold range_start.
  pose proof (Z.div_pos n m ltac:(lia) ltac:(lia)).
  pose proof (Z.mod_pos_bound n m ltac:(lia)). nia.
Qed.

Lemma range_start_mono n m i j :
  0 < m -> 0 <= n -> i <= j -> range_start n m i <= range_start n m j.
Proof.
  intros. unfold range_start.
  pose proof (Z.div_pos n m ltac:(lia) ltac:(lia)). nia.
Qed.

(** The size of the sorted list is the size of the dict. *)
Lemma len_all_partitions t :
  len (all_partitions t) = Z.of_nat (size (topic_partitions t)).
Proof.
  unfold len, all_partitions, dict_values.
  by rewrite sort_by_key_length, length_fmap, length_map_to_list.
Qed.

Lemma all_partitions_sorted t : Sorted (key_le p_to_str) (all_partitions t).
Proof. apply sort_by_key_sorted. Qed.

Lemma all_partitions_perm t :
  all_partitions t ≡ₚ dict_values (topic_partitions t).
Proof. apply sort_by_key_perm. Qed.

(** What the decider computes once [self._id] is found at [idx]. *)
Lemma decide_partitions_at self_id t participants idx :
  index self_id participants = Ok idx ->
  decide_partitions self_id t participants
  = Ok (list_to_set
          (slice (all_partitions t)
             (range_start (len (all_partitions t)) (len participants) idx)
             (range_start (len (all_partitions t)) (len participants) idx
              + range_count (len (all_partitions t)) (len participants) idx))).
Proof.
  intros Hidx. unfold decide_partitions. rewrite Hidx.
  apply index_lookup in Hidx as [Hi _].
  destruct (Z.eqb_spec (len participants) 0) as [?|_]; [lia|].
  assert (0 <= len (all_partitions t)) by (unfold len; lia).
  rewrite islice_slice.
  2:{ apply (range_start_nonneg _ (len participants)); lia. }
  unfold range_start, range_count. do 3 f_equal.
  destruct (Z.gtb_spec (idx + 1) (len (all_partitions t) mod len participants));
    destruct (Z.ltb_spec idx (len (all_partitions t) mod len participants)); lia.
Qed.

Section Decider.
Context {W : Type}.

(** C1. With self-id at index [i] of the peer list, [_decide_partitions]
      returns the contiguous slice [partitions[start : start + count]] of the
      sorted partition list as a set, where [base = n / m], [rem = n mod m],
      [start = base * i + min(i, rem)] and [count = base + (1 if i < rem else
      0)]; it changes nothing. *)
Theorem decide_partitions_range (st : State W) (participants : list string)
      (i : nat) :
    NoDup participants ->
    participants !! i = Some (_id (self st)) ->
    let partitions := all_partitions (_topic (self st)) in
    let n := len partitions in
    let m := len participants in
    let base := n / m in
    let rem := n mod m in
    let start := base * Z.of_nat i + Z.min (Z.of_nat i) rem in
    let count := base + (if Z.of_nat i <? rem then 1 else 0) in
    1 <= m /\
    Sorted (key_le p_to_str) partitions /\
    _decide_partitions participants st
    = (Ok (list_to_set (slice partitions start (start + count))), st).
Proof.
    intros Hnd Hi. simpl.
    split; [|split].
    - apply lookup_lt_Some in Hi. unfold len. lia.
    - apply all_partitions_sorted.
    - unfold _decide_partitions, mbind, M_bind, get_self, lift. simpl.
      rewrite (decide_partitions_at _ _ _ (Z.of_nat i))
        by (by apply index_NoDup).
      done.
Qed.
End Decider.

Lemma topic_wf_NoDup t : topic_wf t -> NoDup (dict_values (topic_partitions t)).
Proof.
  intros Hwf. unfold dict_values.
  apply NoDup_fmap_2_strong; [|apply NoDup_map_to_list].
  intros [k1 p1] [k2 p2] H1 H2 Heq. simpl in Heq. subst p2.
  apply elem_of_map_to_list in H1, H2.
  apply Hwf in H1, H2. congruence.
Qed.

Lemma elem_of_slice {A} (l : list A) (a b : Z) x :
  0 <= a ->
  x ∈ slice l a b <->
  exists k : nat, a <= Z.of_nat k < b /\ l !! k = Some x.
Proof.
  intros Ha. unfold slice. rewrite elem_of_take. split.
  - intros (i & Hi & Hlt). rewrite lookup_drop in Hi.
    exists (Z.to_nat a + i)%nat. split; [lia|done].
  - intros (k & Hk & Hl). exists (k - Z.to_nat a)%nat.
    rewrite lookup_drop.
    replace (Z.to_nat a + (k - Z.to_nat a))%nat with k by lia.
    split; [done|lia].
Qed.

Lemma Forall2_map_seq {A B} (P : A -> B -> Prop) (f : nat -> B) (l : list A)
    (k : nat) :
  (forall i x, l !! i = Some x -> P x (f (k + i)%nat)) ->
  Forall2 P l (map f (seq k (length l))).
Proof.
  revert k. induction l as [|x l IH]; intros k Hl; simpl; [constructor|].
  constructor.
  - specialize (Hl 0%nat x eq_refl). by rewrite Nat.add_0_r in Hl.
  - apply IH. intros i y Hi. specialize (Hl (S i) y Hi).
    by replace (S k + i)%nat with (k + S i)%nat by lia.
Qed.

Section Shares.
Variable t : Topic.
Variable participants : list string.

Let all := all_partitions t.
Let n := len all.
Let m := len participants.

Hypothesis m_pos : 1 <= m.

Lemma n_nonneg : 0 <= n.
Proof. unfold n, len. lia. Qed.

Lemma shares_union_prefix (k : nat) :
    ⋃ (map (share t participants) (seq 0 k))
    = list_to_set (take (Z.to_nat (range_start n m (Z.of_nat k))) all).
Proof.
    pose proof n_nonneg as Hn.
    induction k as [|k IH].
    - simpl. rewrite range_start_0 by lia. done.
    - rewrite seq_S, map_app, union_list_app_L, IH. simpl.
      rewrite (right_id_L ∅ (∪)).
      replace (Z.of_nat (S k)) with (Z.of_nat k + 1) by lia.
      rewrite range_start_succ.
      pose proof (range_start_nonneg n m (Z.of_nat k) ltac:(lia) Hn ltac:(lia)).
      pose proof (range_count_nonneg n m (Z.of_nat k) ltac:(lia) Hn).
      rewrite Z2Nat.inj_add by lia.
      rewrite <- take_take_drop, list_to_set_app_L.
      f_equal. unfold share, slice. fold all n m. do 2 f_equal. lia.
Qed.

Lemma shares_union :
    ⋃ (map (share t participants) (seq 0 (length participants)))
    = list_to_set (dict_values (topic_partitions t)).
Proof.
    rewrite shares_union_prefix.
    replace (Z.of_nat (length participants)) with m by done.
    rewrite range_start_last by (pose proof n_nonneg; lia).
    rewrite take_ge by (unfold n, len; lia).
    apply list_to_set_perm_L, all_partitions_perm.
Qed.

Lemma shares_disjoint_lt (i j : nat) :
    NoDup all -> (i < j)%nat -> share t participants i ## share t participants j.
Proof.
    intros Hnd Hij x Hi Hj.
    pose proof n_nonneg as Hn.
    unfold share in Hi, Hj. fold all n m in Hi, Hj.
    rewrite elem_of_list_to_set, elem_of_slice in Hi, Hj
      by (apply range_start_nonneg; lia).
    destruct Hi as (a & Ha & Hla), Hj as (b & Hb & Hlb).
    pose proof (NoDup_lookup _ _ _ _ Hnd Hla Hlb) as ->.
    rewrite <- range_start_succ in Ha.
    pose proof (range_start_mono n m (Z.of_nat i + 1) (Z.of_nat j)
                  ltac:(lia) Hn ltac:(lia)).
    lia.
Qed.
End Shares.

(** C2. Running the decider once for every peer of a list of [m >= 1]
    distinct peers gives shares whose union is the set of the topic's
    partitions and which are pairwise disjoint. *)
Theorem decide_partitions_cover (t : Topic) (participants : list string) :
  topic_wf t ->
  NoDup participants ->
  1 <= len participants ->
  exists shares : list (gset Partition),
    Forall2 (fun peer s => decide_partitions peer t participants = Ok s)
      participants shares /\
    ⋃ shares = list_to_set (dict_values (topic_partitions t)) /\
    (forall i j si sj, i <> j ->
       shares !! i = Some si -> shares !! j = Some sj -> si ## sj).
Proof.
  intros Hwf Hnd Hm.
  exists (map (share t participants) (seq 0 (length participants))).
  split; [|split].
  - apply Forall2_map_seq. intros i peer Hi. simpl.
    apply decide_partitions_at. by apply index_NoDup.
  - by apply shares_union.
  - assert (NoDup (all_partitions t)) as Hall.
    { rewrite all_partitions_perm. by apply topic_wf_NoDup. }
    intros i j si sj Hij Hi Hj.
    rewrite list_lookup_fmap in Hi, Hj.
    destruct (seq 0 (length participants) !! i) as [i'|] eqn:Ei; [|done].
    destruct (seq 0 (length participants) !! j) as [j'|] eqn:Ej; [|done].
    apply lookup_seq in Ei as [-> _]. apply lookup_seq in Ej as [-> _].
    simpl in Hi, Hj. injection Hi as <-. injection Hj as <-.
    destruct (decide (i < j)%nat).
    + by apply shares_disjoint_lt.
    + symmetry. apply shares_disjoint_lt; [done..|lia].
Qed.


(** ** Programs *)

Ltac munfold :=
  unfold mbind, M_bind, mret, M_ret, call, emit, get_self, set_self, raise,
    lift, try_except; simpl.

Lemma with_partitions_id s : with_partitions (_partitions s) s = s.
Proof. by destruct s. Qed.

Lemma with_partitions_twice ps qs s :
  with_partitions ps (with_partitions qs s) = with_partitions ps s.
Proof. done. Qed.

Lemma difference_difference_cap (owned new : gset Partition) :
  owned ∖ (owned ∖ new) = owned ∩ new.
Proof.
  apply set_eq. intros x. set_unfold.
  destruct (decide (x ∈ new)); tauto.
Qed.

Lemma difference_cap (owned new : gset Partition) :
  new ∖ (owned ∩ new) = new ∖ owned.
Proof. apply set_eq. intros x. set_unfold. tauto. Qed.

Lemma cap_union_difference (owned new : gset Partition) :
  (owned ∩ new) ∪ (new ∖ owned) = new.
Proof.
  apply set_eq. intros x. set_unfold.
  destruct (decide (x ∈ owned)); tauto.
Qed.

Lemma take_prefix_of {A} (k : nat) (l : list A) : take k l `prefix_of` l.
Proof. exists (drop k l). by rewrite take_drop. Qed.

Lemma Forall_prefix_of {A} (P : A -> Prop) (l1 l2 : list A) :
  l1 `prefix_of` l2 -> Forall P l2 -> Forall P l1.
Proof. intros [k ->] Hall. by apply Forall_app in Hall as [? _]. Qed.

Lemma filter_none {A} (f : A -> bool) (l : list A) :
  Forall (fun x => f x = false) l -> List.filter f l = [].
Proof.
  induction 1 as [|x l Hx _ IH]; simpl; [done|]. by rewrite Hx.
Qed.




Lemma string_app_assoc (a b c : string) : (a +:+ b) +:+ c = a +:+ b +:+ c.
Proof.
  induction a as [|x a IH]; [done|].
  change (String x ((a +:+ b) +:+ c) = String x (a +:+ b +:+ c)).
  by rewrite IH.
Qed.


Section Programs.
Context {W : Type} `{World W}.

(** *** [_get_participants] *)

Lemma get_participants_loop_run ids acc (st : State W) obs w2 :
  observe (_id_path (self st)) ids (world st) = (obs, w2) ->
  Forall benign obs ->
  get_participants_loop ids acc st
  = (Ok (acc ++ map fst (filter (registered_for (topic_name (_topic (self st)))) obs)),
     mkState (self st) w2
       (trace st ++ map (fun id_ => EvGet (_id_path (self st) +:+ "/" +:+ id_)) ids)).
Proof.
  revert acc st obs w2.
  induction ids as [|id_ rest IH]; intros acc st obs w2 Hobs Hben; simpl in *.
  - injection Hobs as <- <-. munfold. rewrite !app_nil_r. by destruct st.
  - destruct (zk_get _ (world st)) as [r w1] eqn:Eget.
    destruct (observe _ rest w1) as [obs' w2'] eqn:Eobs.
    injection Hobs as <- <-.
    apply Forall_cons in Hben as [Hr Hben].
    munfold. rewrite Eget.
    destruct r as [v|e]; simpl.
    + destruct (decide (v = _)) as [Hv|Hv]; simpl.
      * erewrite IH; [|simpl; exact Eobs|done]. simpl.
        rewrite filter_cons_True by (unfold registered_for; simpl; by rewrite bool_decide_eq_true_2).
        simpl. by rewrite <- !app_assoc.
      * erewrite IH; [|simpl; exact Eobs|done]. simpl.
        rewrite filter_cons_False
          by (unfold registered_for; simpl; by intros ?%bool_decide_unpack).
        by rewrite <- !app_assoc.
    + destruct e; try done. simpl.
      erewrite IH; [|simpl; exact Eobs|done]. simpl.
      rewrite filter_cons_False by (unfold registered_for; simpl; tauto).
      by rewrite <- !app_assoc.
Qed.

(** Whatever the store answers, the loop reads only, and leaves the
    object as it is. *)
Lemma get_participants_loop_frame ids acc (st : State W) :
  self (get_participants_loop ids acc st).2 = self st /\
  exists evs, trace (get_participants_loop ids acc st).2 = trace st ++ evs /\
              forallb is_read evs = true.
Proof.
  revert acc st. induction ids as [|id_ rest IH]; intros acc st; simpl.
  - split; [done|]. exists []. by rewrite app_nil_r.
  - munfold. destruct (zk_get _ (world st)) as [[v|e] w1]; simpl.
    + destruct (decide (v = _)); simpl.
      all: match goal with |- context [get_participants_loop _ ?a ?s] =>
             destruct (IH a s) as (Hs & evs & Ht & Hr) end.
      all: split; [by rewrite Hs|]; eexists (_ :: evs); rewrite Ht; simpl.
      all: by rewrite <- app_assoc.
    + destruct e; simpl.
      2-6: split; [done|]; by eexists [_].
      match goal with |- context [get_participants_loop _ ?a ?s] =>
        destruct (IH a s) as (Hs & evs & Ht & Hr) end.
      split; [by rewrite Hs|]. eexists (_ :: evs). rewrite Ht. simpl.
      by rewrite <- app_assoc.
Qed.

Lemma get_participants_frame (st : State W) :
  self (_get_participants st).2 = self st /\
  exists evs, trace (_get_participants st).2 = trace st ++ evs /\
              forallb is_read evs = true.
Proof.
  unfold _get_participants. munfold.
  destruct (zk_get_children _ (world st)) as [[ids|e] w1]; simpl.
  - match goal with |- context [get_participants_loop ?ids ?a ?s] =>
      destruct (get_participants_loop_frame ids a s) as (Hs & evs & Ht & Hr);
      destruct (get_participants_loop ids a s) as [[l|e] st2] end; simpl in *.
    all: split; [done|]; eexists (_ :: evs); rewrite Ht; simpl.
    all: by rewrite <- app_assoc.
  - destruct e; simpl; (split; [done|]); by eexists [_].
Qed.

(** *** [_remove_partitions] and [_add_partitions] *)

Lemma run_deletes_count paths (w : W) r w1 k :
  run_deletes paths w = (r, w1, k) ->
  (k <= length paths)%nat /\ (is_Ok r = true -> k = length paths).
Proof.
  revert w r w1 k. induction paths as [|p rest IH]; intros w r w1 k; simpl.
  - intros [= <- <- <-]. done.
  - destruct (zk_delete p w) as [[u|e] w'].
    + destruct (run_deletes rest w') as [[r' w2] k'] eqn:E.
      intros [= <- <- <-]. destruct (IH _ _ _ _ E) as [Hle Hok].
      split; [lia|]. intros Hr. by rewrite Hok.
    + intros [= <- <- <-]. simpl. split; [lia|done].
Qed.

Lemma run_creates_count v paths (w : W) r w1 k :
  run_creates v paths w = (r, w1, k) ->
  (k <= length paths)%nat /\ (is_Ok r = true -> k = length paths).
Proof.
  revert w r w1 k. induction paths as [|p rest IH]; intros w r w1 k; simpl.
  - intros [= <- <- <-]. done.
  - destruct (zk_create p v true false w) as [[u|e] w'].
    + destruct (run_creates v rest w') as [[r' w2] k'] eqn:E.
      intros [= <- <- <-]. destruct (IH _ _ _ _ E) as [Hle Hok].
      split; [lia|]. intros Hr. by rewrite Hok.
    + intros [= <- <- <-]. simpl. split; [lia|done].
Qed.

Lemma remove_partitions_loop_run l (st : State W) r w1 k :
  Forall (fun p => p ∈ _partitions (self st)) l ->
  run_deletes (map (_path_from_partition (self st)) l) (world st) = (r, w1, k) ->
  remove_partitions_loop l st
  = (r, mkState (self st) w1
          (trace st ++ take k (map (fun p => EvDelete (_path_from_partition (self st) p)) l))).
Proof.
  revert st r w1 k. induction l as [|p rest IH]; intros st r w1 k Hin; simpl.
  - intros [= <- <- <-]. munfold. rewrite app_nil_r. by destruct st.
  - apply Forall_cons in Hin as [Hp Hin]. munfold.
    destruct (decide (p ∈ _partitions (self st))) as [_|?]; [|done]. simpl.
    destruct (zk_delete _ (world st)) as [[u|e] w'].
    + destruct (run_deletes _ w') as [[r' w2] k'] eqn:E.
      intros [= <- <- <-].
      erewrite IH; [|done|simpl; exact E]. simpl.
      by rewrite <- app_assoc.
    + intros [= <- <- <-]. simpl. by rewrite take_0.
Qed.

Lemma remove_partitions_run ps (st : State W) r w1 k :
  ps ⊆ _partitions (self st) ->
  run_deletes (map (_path_from_partition (self st)) (elements ps)) (world st)
  = (r, w1, k) ->
  _remove_partitions ps st
  = (r, mkState (if is_Ok r
                 then with_partitions (_partitions (self st) ∖ ps) (self st)
                 else self st)
          w1 (trace st ++ take k (delete_events (self st) ps))).
Proof.
  intros Hsub Hrun. unfold _remove_partitions. munfold.
  erewrite remove_partitions_loop_run; [|..|exact Hrun].
  2:{ apply Forall_forall. intros p Hp. apply Hsub. by apply elem_of_elements. }
  destruct r as [[]|e]; done.
Qed.

Lemma add_partitions_loop_run l (st : State W) r w1 k :
  run_creates (_id (self st)) (map (_path_from_partition (self st)) l) (world st)
  = (r, w1, k) ->
  add_partitions_loop l st
  = (r, mkState (self st) w1
          (trace st ++ take k (map (fun p => EvCreate (_path_from_partition (self st) p)
                                               (_id (self st)) true false) l))).
Proof.
  revert st r w1 k. induction l as [|p rest IH]; intros st r w1 k; simpl.
  - intros [= <- <- <-]. munfold. rewrite app_nil_r. by destruct st.
  - munfold.
    destruct (zk_create _ _ _ _ (world st)) as [[u|e] w'].
    + destruct (run_creates _ _ w') as [[r' w2] k'] eqn:E.
      intros [= <- <- <-].
      erewrite IH; [|simpl; exact E]. simpl.
      by rewrite <- app_assoc.
    + intros [= <- <- <-]. simpl. by rewrite take_0.
Qed.

Lemma add_partitions_run ps (st : State W) r w1 k :
  run_creates (_id (self st)) (map (_path_from_partition (self st)) (elements ps))
    (world st) = (r, w1, k) ->
  _add_partitions ps st
  = (r, mkState (if is_Ok r
                 then with_partitions (_partitions (self st) ∪ ps) (self st)
                 else self st)
          w1 (trace st ++ take k (create_events (self st) ps))).
Proof.
  intros Hrun. unfold _add_partitions. munfold.
  erewrite add_partitions_loop_run; [|exact Hrun].
  destruct r as [[]|e]; [|done]. simpl.
  replace (_partitions (self st) ∪ ps ∖ _partitions (self st))
    with (_partitions (self st) ∪ ps); [done|].
  apply set_eq. intros x. set_unfold.
  destruct (decide (x ∈ _partitions (self st))); tauto.
Qed.

(** *** One attempt of a rebalance pass *)

(** A release that fails ends the attempt: nothing is acquired and the
    owned set stays. *)
Lemma rebalance_attempt_release_fails i participants new (st : State W) e w1 k1 :
  i <= 0 ->
  run_deletes (map (_path_from_partition (self st))
                 (elements (_partitions (self st) ∖ new))) (world st)
  = (Raise e, w1, k1) ->
  rebalance_attempt i participants new st
  = (Raise e,
     mkState (self st) w1
       (trace st ++ take k1 (delete_events (self st) (_partitions (self st) ∖ new)))).
Proof.
  intros Hi Hrun. unfold rebalance_attempt.
  destruct (Z.ltb_spec 0 i) as [?|_]; [lia|]. munfold.
  erewrite remove_partitions_run; [|apply subseteq_difference_l; done|exact Hrun]. done.
Qed.

(** After a full release the acquisitions run; contention
    ([NodeExistsError]) asks for another attempt. *)
Lemma rebalance_attempt_released i participants new (st : State W) u w1 k1 r2 w2 k2 :
  i <= 0 ->
  run_deletes (map (_path_from_partition (self st))
                 (elements (_partitions (self st) ∖ new))) (world st)
  = (Ok u, w1, k1) ->
  run_creates (_id (self st))
    (map (_path_from_partition (self st))
       (elements (new ∖ _partitions (self st)))) w1
  = (r2, w2, k2) ->
  rebalance_attempt i participants new st
  = (match r2 with
     | Ok _ => Ok (Break, participants, new)
     | Raise NodeExistsError => Ok (Continue, participants, new)
     | Raise e => Raise e
     end,
     mkState (with_partitions (if is_Ok r2 then new
                               else _partitions (self st) ∩ new) (self st))
       w2
       (trace st ++ delete_events (self st) (_partitions (self st) ∖ new)
          ++ take k2 (create_events (self st) (new ∖ _partitions (self st))))).
Proof.
  intros Hi Hdel Hcre. unfold rebalance_attempt.
  destruct (Z.ltb_spec 0 i) as [?|_]; [lia|]. munfold.
  erewrite remove_partitions_run; [|apply subseteq_difference_l; done|exact Hdel]. simpl.
  destruct (run_deletes_count _ _ _ _ _ Hdel) as [_ ->]; [|done].
  rewrite difference_difference_cap.
  erewrite add_partitions_run.
  2:{ simpl. rewrite difference_cap. exact Hcre. }
  simpl. rewrite difference_cap, cap_union_difference.
  rewrite (take_ge (delete_events _ _))
    by (unfold delete_events; by rewrite !length_map).
  rewrite <- !app_assoc.
  destruct r2 as [[]|e]; simpl; [done|].
  destruct e; done.
Qed.

(** The first attempt: releases, then acquisitions, and nothing else. *)
Lemma rebalance_attempt_first_trace i participants new (st : State W) :
  i <= 0 ->
  exists dels crs ps,
    trace (rebalance_attempt i participants new st).2 = trace st ++ dels ++ crs /\
    dels `prefix_of` delete_events (self st) (_partitions (self st) ∖ new) /\
    crs `prefix_of` create_events (self st) (new ∖ _partitions (self st)) /\
    (crs = [] \/ dels = delete_events (self st) (_partitions (self st) ∖ new)) /\
    self (rebalance_attempt i participants new st).2 = with_partitions ps (self st).
Proof.
  intros Hi.
  destruct (run_deletes (map (_path_from_partition (self st))
              (elements (_partitions (self st) ∖ new))) (world st))
    as [[[u|e] w1] k1] eqn:Hdel.
  - destruct (run_creates (_id (self st))
                (map (_path_from_partition (self st))
                   (elements (new ∖ _partitions (self st)))) w1)
      as [[r2 w2] k2] eqn:Hcre.
    rewrite (rebalance_attempt_released _ _ _ _ _ _ _ _ _ _ Hi Hdel Hcre).
    simpl. eexists _, _, _. split; [done|].
    split; [done|]. split; [apply take_prefix_of|]. split; [by right|done].
  - rewrite (rebalance_attempt_release_fails _ _ _ _ _ _ _ Hi Hdel). simpl.
    exists (take k1 (delete_events (self st) (_partitions (self st) ∖ new))),
      [], (_partitions (self st)).
    rewrite app_nil_r, with_partitions_id.
    split; [done|]. split; [apply take_prefix_of|].
    split; [apply prefix_nil|]. split; [by left|done].
Qed.

(** A retry: the log line, the sleep, a fresh peer list, a fresh
    decision, and then what the first attempt does with these. *)
Lemma rebalance_attempt_retry i participants new (st : State W) :
  0 < i ->
  rebalance_attempt i participants new st
  = match _get_participants
            (mkState (self st) (time_sleep (i ^ 2) (world st))
               (trace st ++ [EvLogRetry ((i + 1) ^ 2); EvSleep (i ^ 2)])) with
    | (Ok participants', st2) =>
        match decide_partitions (_id (self st2)) (_topic (self st2))
                participants' with
        | Ok new' => rebalance_attempt 0 participants' new' st2
        | Raise e => (Raise e, st2)
        end
    | (Raise e, st2) => (Raise e, st2)
    end.
Proof.
  intros Hi. unfold rebalance_attempt, _decide_partitions.
  destruct (Z.ltb_spec 0 i) as [_|?]; [|lia]. munfold.
  rewrite <- app_assoc. simpl.
  destruct (_get_participants _) as [[participants'|e] st2]; [|done].
  destruct (decide_partitions _ _ participants') as [new'|e]; done.
Qed.

Lemma rebalance_attempt_trace i participants new (st : State W) :
  exists targets reads dels crs ps,
    trace (rebalance_attempt i participants new st).2
    = trace st
        ++ (if 0 <? i then [EvLogRetry ((i + 1) ^ 2); EvSleep (i ^ 2)] else [])
        ++ reads ++ dels ++ crs /\
    forallb is_read reads = true /\
    (0 < i \/ (targets = new /\ reads = [])) /\
    dels `prefix_of` delete_events (self st) (_partitions (self st) ∖ targets) /\
    crs `prefix_of` create_events (self st) (targets ∖ _partitions (self st)) /\
    (crs = [] \/ dels = delete_events (self st) (_partitions (self st) ∖ targets)) /\
    self (rebalance_attempt i participants new st).2 = with_partitions ps (self st).
Proof.
  destruct (Z.ltb_spec 0 i) as [Hi|Hi].
  - rewrite rebalance_attempt_retry by done.
    match goal with |- context [_get_participants ?s] =>
      destruct (get_participants_frame s) as (Hs & evs & Ht & Hr);
      destruct (_get_participants s) as [[participants'|e] st2] end;
      simpl in Hs, Ht.
    + destruct (decide_partitions _ _ participants') as [new'|e].
      * destruct (rebalance_attempt_first_trace 0 participants' new' st2)
          as (dels & crs & ps & Htr & Hd & Hc & Hor & Hself); [lia|].
        rewrite Hs in *.
        exists new', evs, dels, crs, ps.
        rewrite Htr, Ht, Hself. rewrite <- !app_assoc. simpl.
        repeat split; try done. by left.
      * simpl. exists ∅, evs, [], [], (_partitions (self st)).
        rewrite Ht, Hs, with_partitions_id, <- !app_assoc. simpl.
        rewrite app_nil_r.
        repeat split; try done; [by left|apply prefix_nil..|by left].
    + simpl. exists ∅, evs, [], [], (_partitions (self st)).
      rewrite Ht, Hs, with_partitions_id, <- !app_assoc. simpl.
      rewrite app_nil_r.
      repeat split; try done; [by left|apply prefix_nil..|by left].
  - destruct (rebalance_attempt_first_trace i participants new st Hi)
      as (dels & crs & ps & Htr & Hd & Hc & Hor & Hself).
    exists new, [], dels, crs, ps. simpl.
    repeat split; try done. by right.
Qed.

(** C6. Within an attempt of a rebalance pass every release comes before
    every acquisition: after the reads of the attempt, the trace is a run of
    deletions of the ownership nodes of owned minus targets followed by a
    run of creations of those of targets minus owned, and a creation is
    only issued once all the deletions have been. *)
Theorem release_precedes_acquire (i : Z) (participants : list string)
    (new : gset Partition) (st : State W) :
  exists (targets : gset Partition) (prelude dels crs : list Event),
    trace (rebalance_attempt i participants new st).2
    = trace st ++ prelude ++ dels ++ crs /\
    forallb (fun e => is_read e || is_retry_event e) prelude = true /\
    (0 < i \/ (targets = new /\ prelude = [])) /\
    dels `prefix_of` delete_events (self st) (_partitions (self st) ∖ targets) /\
    crs `prefix_of` create_events (self st) (targets ∖ _partitions (self st)) /\
    (crs = [] \/ dels = delete_events (self st) (_partitions (self st) ∖ targets)).
Proof.
  destruct (rebalance_attempt_trace i participants new st)
    as (targets & reads & dels & crs & ps & Htr & Hr & Hi & Hd & Hc & Hor & _).
  exists targets,
    ((if 0 <? i then [EvLogRetry ((i + 1) ^ 2); EvSleep (i ^ 2)] else []) ++ reads),
    dels, crs.
  rewrite Htr, <- !app_assoc.
  repeat split; try done.
  - rewrite forallb_app. apply andb_true_iff. split.
    + by destruct (0 <? i).
    + clear -Hr. induction reads as [|e l IH]; simpl in *; [done|].
      apply andb_true_iff in Hr as [-> ?]. simpl. by apply IH.
  - destruct (Z.ltb_spec 0 i) as [?|Hle]; [by left|right].
    destruct Hi as [?|[-> ->]]; [lia|done].
Qed.

(** *** The pass *)

Lemma setup_internal_consumer_run (st : State W) :
  _setup_internal_consumer st
  = (Ok tt,
     mkState (with_consumer (Some (consumer_of (self st))) (self st)) (world st)
       (trace st ++ stop_events (self st) ++ [EvConsumerNew (consumer_of (self st))])).
Proof.
  unfold _setup_internal_consumer, stop_events. munfold.
  destruct (_consumer (self st)); simpl; [|done].
  by rewrite <- app_assoc.
Qed.




(** The loop runs the attempts in the order of the indices: [break] and
    an exception end it, [continue] passes the values of the attempt on to
    the next index. *)
Lemma rebalance_loop_cons i rest participants new (st : State W) :
  rebalance_loop (i :: rest) participants new st
  = match rebalance_attempt i participants new st with
    | (Ok (Break, _, _), st1) => (Ok tt, st1)
    | (Ok (Continue, participants', new'), st1) =>
        rebalance_loop rest participants' new' st1
    | (Raise e, st1) => (Raise e, st1)
    end.
Proof.
  simpl. munfold.
  by destruct (rebalance_attempt i participants new st)
    as [[[[[] participants'] new']|e] st1].
Qed.

(** [_rebalance] once the first read and the first decision have
    returned. *)
Lemma rebalance_run (st st1 : State W) participants new :
  _get_participants st = (Ok participants, st1) ->
  decide_partitions (_id (self st)) (_topic (self st)) participants = Ok new ->
  _rebalance st
  = match rebalance_loop (xrange (_rebalance_retries (self st))) participants new st1 with
    | (Ok _, st2) => _setup_internal_consumer st2
    | (Raise e, st2) => (Raise e, st2)
    end.
Proof.
  intros Hget Hdec.
  destruct (get_participants_frame st) as (Hs & _). rewrite Hget in Hs.
  simpl in Hs.
  unfold _rebalance, _decide_partitions. munfold. rewrite Hget. simpl.
  rewrite Hs, Hdec. simpl.
  by destruct (rebalance_loop _ participants new st1) as [[[]|e] st2].
Qed.





(** C5, as the code has it. When the newly decided set equals the owned
    set, a pass deletes and creates no ownership node and leaves the owned
    set as it is, and still replaces the inner consumer: the one held, if
    any, is stopped, and a new one is constructed over the same set. *)
Theorem rebalance_same_set_replaces_consumer (st st1 : State W)
    (participants : list string) :
  _get_participants st = (Ok participants, st1) ->
  decide_partitions (_id (self st)) (_topic (self st)) participants
  = Ok (_partitions (self st)) ->
  _rebalance st
  = (Ok tt,
     mkState (with_consumer (Some (consumer_of (self st))) (self st)) (world st1)
       (trace st1 ++ stop_events (self st)
          ++ [EvConsumerNew (consumer_of (self st))])).
Proof.
  intros Hget Hdec.
  destruct (get_participants_frame st) as (Hs & _). rewrite Hget in Hs.
  simpl in Hs.
  unfold _rebalance, _decide_partitions. munfold.
  rewrite Hget. simpl. rewrite Hs, Hdec. simpl.
  assert (rebalance_loop (xrange (_rebalance_retries (self st))) participants
            (_partitions (self st)) st1 = (Ok tt, st1)) as ->.
  { unfold xrange. rewrite <- Hs.
    destruct (Z.lt_ge_cases 0 (_rebalance_retries (self st1))) as [HR|HR].
    - rewrite seqZ_cons by done. simpl. munfold.
      erewrite (rebalance_attempt_released 0 participants (_partitions (self st1))
                  st1 tt (world st1) 0 (Ok tt) (world st1) 0); [|lia|..].
      + simpl. rewrite difference_diag_L. unfold delete_events.
        rewrite elements_empty. simpl.
        rewrite with_partitions_id, app_nil_r. by destruct st1.
      + by rewrite difference_diag_L, elements_empty.
      + by rewrite difference_diag_L, elements_empty.
    - by rewrite seqZ_nil by lia. }
  rewrite setup_internal_consumer_run. by rewrite Hs.
Qed.

(** C8. [_add_self] issues the [create] of the ephemeral member node
    [/consumers/<group>/ids/<self-id>], with the topic name as payload, iff
    fewer participants than partitions were read; otherwise it returns
    normally having only read. *)
Theorem add_self_guard (st st1 : State W) (participants : list string) :
  _get_participants st = (Ok participants, st1) ->
  _id_path (self st) = "/consumers/" +:+ _consumer_group (self st) +:+ "/ids" ->
  let path := "/consumers/" +:+ _consumer_group (self st) +:+ "/ids/"
                +:+ _id (self st) in
  let payload := topic_name (_topic (self st)) in
  _add_self st
  = if len participants <? Z.of_nat (size (topic_partitions (_topic (self st))))
    then
      let (r, w) := zk_create path payload true true (world st1) in
      (r, mkState (self st) w (trace st1 ++ [EvCreate path payload true true]))
    else (Ok tt, st1).
Proof.
  intros Hget Hpath. simpl.
  destruct (get_participants_frame st) as (Hs & _). rewrite Hget in Hs.
  simpl in Hs.
  unfold _add_self. munfold. rewrite Hget. simpl. rewrite Hs, Hpath.
  rewrite !string_app_assoc.
  change ("/ids" +:+ "/" +:+ _id (self st)) with ("/ids/" +:+ _id (self st)).
  destruct (Z.leb_spec (Z.of_nat (size (topic_partitions (_topic (self st)))))
              (len participants));
    destruct (Z.ltb_spec (len participants)
                (Z.of_nat (size (topic_partitions (_topic (self st))))));
    try lia; [done|].
  destruct (zk_create _ _ _ _ (world st1)). by rewrite Hs.
Qed.

(** C9. [_get_participants] gives the empty list when the parent path is
    not there. Otherwise it reads the payload of every child, keeps the
    children whose payload is the topic name, skips those whose node is gone
    by then, and returns the kept ids sorted ascending. *)
Theorem get_participants_spec (st : State W) :
  let path := _id_path (self st) in
  let topic := topic_name (_topic (self st)) in
  (forall w1,
     zk_get_children path (world st) = (Raise NoNodeException, w1) ->
     _get_participants st
     = (Ok [], mkState (self st) w1 (trace st ++ [EvGetChildren path]))) /\
  (forall ids w1 obs w2,
     zk_get_children path (world st) = (Ok ids, w1) ->
     observe path ids w1 = (obs, w2) ->
     Forall benign obs ->
     exists participants,
       _get_participants st
       = (Ok participants,
          mkState (self st) w2
            (trace st ++ EvGetChildren path
               :: map (fun id_ => EvGet (path +:+ "/" +:+ id_)) ids)) /\
       participants = sort_by_key (fun x => x)
                        (map fst (filter (registered_for topic) obs)) /\
       Sorted (fun a b => String.leb a b = true) participants /\
       (forall id_, id_ ∈ participants <->
                    exists r, (id_, r) ∈ obs /\ r = Ok topic)).
Proof.
  simpl. split.
  - intros w1 Hch. unfold _get_participants. munfold. by rewrite Hch.
  - intros ids w1 obs w2 Hch Hobs Hben.
    eexists. split; [|split; [reflexivity|split]].
    + unfold _get_participants. munfold. rewrite Hch. simpl.
      erewrite get_participants_loop_run; [|simpl; exact Hobs|done]. simpl.
      by rewrite <- app_assoc.
    + apply (sort_by_key_sorted (fun x : string => x)).
    + intros id_. rewrite sort_by_key_perm, list_elem_of_fmap. split.
      * intros ([id' r] & -> & Hin). apply list_elem_of_filter in Hin as [Hreg Hin].
        exists r. split; [done|].
        unfold registered_for in Hreg. simpl in Hreg.
        destruct r as [v|e]; [|done]. by apply bool_decide_unpack in Hreg as ->.
      * intros (r & Hin & ->). exists (id_, Ok (topic_name (_topic (self st)))).
        split; [done|]. apply list_elem_of_filter. split; [|done].
        unfold registered_for. simpl. by apply bool_decide_pack.
Qed.

(** C10. A failing [_add_partitions] leaves [_partitions] as it was: the
    union is made only after every [create] of the batch has succeeded. The
    [create] calls made before the failure were made all the same. *)
Theorem add_partitions_contention (partitions : gset Partition) (st : State W) :
  _partitions (self (_add_partitions partitions st).2)
  = (if is_Ok (_add_partitions partitions st).1
     then _partitions (self st) ∪ partitions
     else _partitions (self st)) /\
  exists k : nat,
    trace (_add_partitions partitions st).2
    = trace st ++ take k (create_events (self st) partitions) /\
    (k <= size partitions)%nat /\
    (if is_Ok (_add_partitions partitions st).1 then k = size partitions
     else (0 < k)%nat).
Proof.
  destruct (run_creates (_id (self st))
              (map (_path_from_partition (self st)) (elements partitions))
              (world st)) as [[r w1] k] eqn:Hrun.
  rewrite (add_partitions_run _ _ _ _ _ Hrun). simpl.
  destruct (run_creates_count _ _ _ _ _ _ Hrun) as [Hle Hok].
  rewrite length_map in Hle, Hok.
  split; [by destruct r|].
  exists k. split; [done|]. split; [done|].
  destruct r as [u|e]; simpl in *; [by apply Hok|].
  destruct (elements partitions) as [|p rest]; simpl in Hrun; [done|].
  destruct (zk_create _ _ _ _ (world st)) as [[u|e'] w'].
  - destruct (run_creates _ _ w') as [[r' w2] k']. injection Hrun as _ _ <-. lia.
  - injection Hrun as _ _ <-. lia.
Qed.

(** A release that raises ends the first attempt with that exception, in
    the state the release left, the object as it was. *)
Lemma rebalance_attempt_release_raises i participants new (st st1 : State W) e :
  i <= 0 ->
  _remove_partitions (_partitions (self st) ∖ new) st = (Raise e, st1) ->
  rebalance_attempt i participants new st = (Raise e, st1) /\ self st1 = self st.
Proof.
  intros Hi Hrem. split.
  - unfold rebalance_attempt.
    destruct (Z.ltb_spec 0 i) as [?|_]; [lia|]. munfold. by rewrite Hrem.
  - destruct (run_deletes (map (_path_from_partition (self st))
                (elements (_partitions (self st) ∖ new))) (world st))
      as [[r w1] k] eqn:Hrun.
    erewrite remove_partitions_run in Hrem;
      [|by apply subseteq_difference_l|exact Hrun].
    by simplify_eq.
Qed.

(** C4, as the code has it. The release step deletes the ownership nodes
    one by one and stops at the first [delete] that fails; the failure,
    [NoNodeException] included, is raised as it is and the owned set stays.
    The owned set loses the partitions only when every [delete] succeeded.
    Nothing in [_rebalance] catches the failure: it ends the attempt, the
    first one or a retry, before anything is acquired and with the object as
    it was; an attempt that raises ends the loop, and a loop that raises
    ends the pass, in the state of the failure, before
    [_setup_internal_consumer]. So a [delete] that fails in the first
    attempt makes the pass raise with the owned set it started with. *)
Theorem release_stops_at_failed_delete (partitions : gset Partition)
    (st : State W) :
  partitions ⊆ _partitions (self st) ->
  (let '(r, w1, k) :=
     run_deletes (map (_path_from_partition (self st)) (elements partitions))
       (world st) in
   _remove_partitions partitions st
   = (r, mkState (if is_Ok r
                  then with_partitions (_partitions (self st) ∖ partitions) (self st)
                  else self st)
           w1 (trace st ++ take k (delete_events (self st) partitions)))) /\
  (forall i participants new e st1,
     i <= 0 ->
     _remove_partitions (_partitions (self st) ∖ new) st = (Raise e, st1) ->
     rebalance_attempt i participants new st = (Raise e, st1) /\
     self st1 = self st) /\
  (forall i participants new participants' new' st0 e st1,
     0 < i ->
     _get_participants
       (mkState (self st) (time_sleep (i ^ 2) (world st))
          (trace st ++ [EvLogRetry ((i + 1) ^ 2); EvSleep (i ^ 2)]))
     = (Ok participants', st0) ->
     decide_partitions (_id (self st0)) (_topic (self st0)) participants'
     = Ok new' ->
     _remove_partitions (_partitions (self st0) ∖ new') st0 = (Raise e, st1) ->
     rebalance_attempt i participants new st = (Raise e, st1) /\
     self st1 = self st) /\
  (forall i rest participants new e st1,
     rebalance_attempt i participants new st = (Raise e, st1) ->
     rebalance_loop (i :: rest) participants new st = (Raise e, st1)) /\
  (forall i rest participants new participants' new' st1,
     rebalance_attempt i participants new st
     = (Ok (Continue, participants', new'), st1) ->
     rebalance_loop (i :: rest) participants new st
     = rebalance_loop rest participants' new' st1) /\
  (forall participants new st1 e st2,
     _get_participants st = (Ok participants, st1) ->
     decide_partitions (_id (self st)) (_topic (self st)) participants = Ok new ->
     rebalance_loop (xrange (_rebalance_retries (self st))) participants new st1
     = (Raise e, st2) ->
     _rebalance st = (Raise e, st2)) /\
  (forall participants new st1 e w1 k,
     0 < _rebalance_retries (self st) ->
     _get_participants st = (Ok participants, st1) ->
     decide_partitions (_id (self st)) (_topic (self st)) participants = Ok new ->
     run_deletes (map (_path_from_partition (self st))
                    (elements (_partitions (self st) ∖ new))) (world st1)
     = (Raise e, w1, k) ->
     _rebalance st
     = (Raise e,
        mkState (self st) w1
          (trace st1
             ++ take k (delete_events (self st) (_partitions (self st) ∖ new))))).
Proof.
  intros Hsub. split; [|split; [|split; [|split; [|split; [|split]]]]].
  - destruct (run_deletes _ (world st)) as [[r w1] k] eqn:Hrun.
    by apply remove_partitions_run.
  - intros i participants new e st1 Hi Hrem.
    by apply rebalance_attempt_release_raises.
  - intros i participants new participants' new' st0 e st1 Hi Hget Hdec Hrem.
    rewrite rebalance_attempt_retry by done. rewrite Hget, Hdec.
    match type of Hget with _get_participants ?s = _ =>
      destruct (get_participants_frame s) as (Hs & _) end.
    rewrite Hget in Hs. simpl in Hs.
    destruct (rebalance_attempt_release_raises 0 participants' new' st0 st1 e)
      as [Hrun Hself]; [lia|done|].
    split; [done|]. by rewrite Hself.
  - intros i rest participants new e st1 Hrun.
    by rewrite rebalance_loop_cons, Hrun.
  - intros i rest participants new participants' new' st1 Hrun.
    by rewrite rebalance_loop_cons, Hrun.
  - intros participants new st1 e st2 Hget Hdec Hloop.
    by rewrite (rebalance_run st st1 participants new Hget Hdec), Hloop.
  - intros participants new st1 e w1 k HR Hget Hdec Hdel.
    destruct (get_participants_frame st) as (Hs & _). rewrite Hget in Hs.
    simpl in Hs.
    rewrite (rebalance_run st st1 participants new Hget Hdec).
    unfold xrange. rewrite seqZ_cons by done. rewrite rebalance_loop_cons.
    rewrite <- Hs in Hdel |- *.
    by rewrite (rebalance_attempt_release_fails 0 participants new st1 e w1 k
                  ltac:(lia) Hdel).
Qed.

(** The decider cannot find an id that is not in the list. *)
Lemma decide_partitions_absent self_id t participants :
  self_id ∉ participants ->
  decide_partitions self_id t participants = Raise ValueError.
Proof.
  intros Hn. unfold decide_partitions.
  destruct (index self_id participants) as [i|e] eqn:E.
  - apply index_lookup in E as [_ Hl]. exfalso. apply Hn.
    by eapply list_elem_of_lookup_2.
  - by apply index_raise in E as [-> _].
Qed.

(** The division is never by zero: the lookup fails first. *)
Lemma decide_partitions_no_zero_division self_id t participants :
  decide_partitions self_id t participants <> Raise ZeroDivisionError.
Proof.
  unfold decide_partitions.
  destruct (index self_id participants) as [i|e] eqn:E.
  - apply index_lookup in E as [Hi _].
    destruct (Z.eqb_spec (len participants) 0); [lia|done].
  - by apply index_raise in E as [-> _].
Qed.

(** [_rebalance] calls the decider on whatever peer list it read. *)
Lemma rebalance_absent_raises (st st1 : State W) participants :
  _get_participants st = (Ok participants, st1) ->
  _id (self st) ∉ participants ->
  _rebalance st = (Raise ValueError, st1).
Proof.
  intros Hget Hn.
  destruct (get_participants_frame st) as (Hs & _). rewrite Hget in Hs.
  simpl in Hs.
  unfold _rebalance, _decide_partitions. munfold. rewrite Hget. simpl.
  rewrite Hs. by rewrite decide_partitions_absent.
Qed.

End Programs.


(** ** Runs on the in-memory store *)

Ltac decide_closed :=
  lazy zeta; apply (bool_decide_unpack _); vm_compute; exact I.

Lemma topic_t_wf (n : Z) : topic_wf (topic_t n).
Proof.
  intros k p Hl. unfold topic_t in Hl. simpl in Hl.
  apply elem_of_list_to_map_2, list_elem_of_fmap in Hl as (i & [= -> ->] & _).
  done.
Qed.

Example three_peers_seven_partitions :
  decide_partitions "a" (topic_t 7) ["a"; "b"; "c"]
  = Ok {[part 0; part 1; part 2]} /\
  decide_partitions "b" (topic_t 7) ["a"; "b"; "c"] = Ok {[part 3; part 4]} /\
  decide_partitions "c" (topic_t 7) ["a"; "b"; "c"] = Ok {[part 5; part 6]}.
Proof. decide_closed. Qed.

Example four_peers_two_partitions :
  decide_partitions "a" (topic_t 2) ["a"; "b"; "c"; "d"] = Ok {[part 0]} /\
  decide_partitions "b" (topic_t 2) ["a"; "b"; "c"; "d"] = Ok {[part 1]} /\
  decide_partitions "c" (topic_t 2) ["a"; "b"; "c"; "d"] = Ok ∅ /\
  decide_partitions "d" (topic_t 2) ["a"; "b"; "c"; "d"] = Ok ∅.
Proof. decide_closed. Qed.

Lemma decide_partitions_range_witness :
  NoDup ["a"; "b"; "c"] /\
  ["a"; "b"; "c"] !! 2%nat = Some (_id (self st_three_seven)) /\
  _decide_partitions ["a"; "b"; "c"] st_three_seven
  = (Ok {[part 5; part 6]}, st_three_seven).
Proof.
  assert (NoDup ["a"; "b"; "c"]) as Hnd by decide_closed.
  split; [exact Hnd|]. split; [reflexivity|].
  destruct (decide_partitions_range st_three_seven ["a"; "b"; "c"] 2 Hnd eq_refl)
    as (_ & _ & ->).
  decide_closed.
Defined.

Lemma decide_partitions_cover_witness :
  exists shares : list (gset Partition),
    Forall2 (fun peer s => decide_partitions peer (topic_t 7) ["a"; "b"; "c"] = Ok s)
      ["a"; "b"; "c"] shares /\
    ⋃ shares = list_to_set (dict_values (topic_partitions (topic_t 7))) /\
    (forall i j si sj, i <> j ->
       shares !! i = Some si -> shares !! j = Some sj -> si ## sj).
Proof.
  apply decide_partitions_cover.
  - apply topic_t_wf.
  - decide_closed.
  - unfold len. simpl. lia.
Defined.

(** C3. The over-subscription guard of [_add_self] leaves member "b"
    unregistered, and [__init__] goes on to [_rebalance], which calls the
    decider on a peer list without "b": [participants.index] raises
    [ValueError] out of the constructor. *)
Theorem init_oversubscribed_raises :
  let r := __init__ (topic_t 1) (ClusterHandle "k") "g" false 60000 30000 "b"
             store_oversubscribed in
  r.1 = Raise ValueError /\
  nodes (world r.2) !! "/consumers/g/ids/b" = None /\
  (_get_participants (mkState (self r.2) store_oversubscribed [])).1 = Ok ["a"] /\
  _consumer (self r.2) = None.
Proof. decide_closed. Qed.

(** C4 fails as stated: the ownership node of partition 1 is gone, the
    [delete] raises [NoNodeException], the release step and the pass raise
    it, and partition 1 stays in the owned set. *)
Lemma release_missing_node_counterexample :
  nodes (world st_node_gone) !! "/consumers/g/owners/t/1-1" = None /\
  decide_partitions "a" (topic_t 2) ["a"; "b"] = Ok {[part 0]} /\
  (_remove_partitions {[part 1]} st_node_gone).1 = Raise NoNodeException /\
  part 1 ∈ _partitions (self (_remove_partitions {[part 1]} st_node_gone).2) /\
  (_rebalance st_node_gone).1 = Raise NoNodeException /\
  _partitions (self (_rebalance st_node_gone).2) = {[part 0; part 1]}.
Proof.
  decide_closed.
Qed.

Lemma release_stops_at_failed_delete_witness :
  {[part 1]} ⊆ _partitions (self st_node_gone) /\
  (_remove_partitions {[part 1]} st_node_gone).1 = Raise NoNodeException /\
  _partitions (self (_remove_partitions {[part 1]} st_node_gone).2)
  = _partitions (self st_node_gone) /\
  0 < _rebalance_retries (self st_node_gone) /\
  _get_participants st_node_gone
  = (Ok ["a"; "b"], (_get_participants st_node_gone).2) /\
  decide_partitions (_id (self st_node_gone)) (_topic (self st_node_gone))
    ["a"; "b"] = Ok {[part 0]} /\
  (_rebalance st_node_gone).1 = Raise NoNodeException /\
  self (_rebalance st_node_gone).2 = self st_node_gone /\
  List.filter (fun e => negb (is_read e)) (trace (_rebalance st_node_gone).2)
  = [EvDelete "/consumers/g/owners/t/1-1"].
Proof.
  assert ({[part 1]} ⊆ _partitions (self st_node_gone)) as Hsub by decide_closed.
  split; [exact Hsub|].
  destruct (release_stops_at_failed_delete {[part 1]} st_node_gone Hsub)
    as (Hrun & _ & _ & _ & _ & _ & Hpass).
  destruct (run_deletes _ (world st_node_gone)) as [[r w1] k] eqn:E.
  assert (r = Raise NoNodeException) as ->.
  { apply (f_equal (fun x => x.1.1)) in E. simpl in E. rewrite <- E.
    decide_closed. }
  rewrite Hrun. split; [decide_closed|]. split; [decide_closed|].
  assert (0 < _rebalance_retries (self st_node_gone)) as HR by decide_closed.
  assert (_get_participants st_node_gone
          = (Ok ["a"; "b"], (_get_participants st_node_gone).2)) as Hget
    by decide_closed.
  assert (decide_partitions (_id (self st_node_gone)) (_topic (self st_node_gone))
            ["a"; "b"] = Ok {[part 0]}) as Hdec by decide_closed.
  split; [exact HR|]. split; [exact Hget|]. split; [exact Hdec|].
  pose (d := run_deletes
               (map (_path_from_partition (self st_node_gone))
                  (elements (_partitions (self st_node_gone) ∖ {[part 0]})))
               (world (_get_participants st_node_gone).2)).
  assert (d = (Raise NoNodeException, d.1.2, d.2)) as Hdel
    by (subst d; decide_closed).
  rewrite (Hpass _ _ _ _ _ _ HR Hget Hdec Hdel).
  subst d. decide_closed.
Defined.

(** C5 fails as stated: the decided set equals the owned set, and the
    pass stops the inner consumer it holds and constructs another. *)
Lemma rebalance_same_set_counterexample :
  _consumer (self st_settled)
  = Some (inner_consumer (topic_t 2) [part 0; part 1]) /\
  decide_partitions "a" (topic_t 2) ["a"] = Ok (_partitions (self st_settled)) /\
  (_rebalance st_settled).1 = Ok tt /\
  trace (_rebalance st_settled).2
  = [EvGetChildren "/consumers/g/ids"; EvGet "/consumers/g/ids/a";
     EvConsumerStop (inner_consumer (topic_t 2) [part 0; part 1]);
     EvConsumerNew (inner_consumer (topic_t 2) [part 0; part 1])].
Proof. decide_closed. Qed.

Lemma rebalance_same_set_replaces_consumer_witness :
  _get_participants st_settled = (Ok ["a"], (_get_participants st_settled).2) /\
  decide_partitions (_id (self st_settled)) (_topic (self st_settled)) ["a"]
  = Ok (_partitions (self st_settled)) /\
  (_rebalance st_settled).1 = Ok tt /\
  _consumer (self (_rebalance st_settled).2) = Some (consumer_of (self st_settled)) /\
  _partitions (self (_rebalance st_settled).2) = _partitions (self st_settled).
Proof.
  assert (_get_participants st_settled
          = (Ok ["a"], (_get_participants st_settled).2)) as Hget by decide_closed.
  assert (decide_partitions (_id (self st_settled)) (_topic (self st_settled)) ["a"]
          = Ok (_partitions (self st_settled))) as Hdec by decide_closed.
  split; [exact Hget|]. split; [exact Hdec|].
  rewrite (rebalance_same_set_replaces_consumer st_settled _ ["a"] Hget Hdec).
  decide_closed.
Defined.

(** All five attempts are made when the contention lasts. *)
Example contention_lasts :
  (_rebalance st_contended).1 = Ok tt /\
  List.filter is_retry_event (trace (_rebalance st_contended).2)
  = [EvLogRetry 4; EvSleep 1; EvLogRetry 9; EvSleep 4;
     EvLogRetry 16; EvSleep 9; EvLogRetry 25; EvSleep 16] /\
  retry_schedule 4
  = [EvLogRetry 4; EvSleep 1; EvLogRetry 9; EvSleep 4;
     EvLogRetry 16; EvSleep 9; EvLogRetry 25; EvSleep 16] /\
  _partitions (self (_rebalance st_contended).2) = ∅.
Proof. decide_closed. Qed.

(** The first attempt fails on the node "a" still holds; the retry, one
    second later, succeeds. *)
Example contention_once :
  (_rebalance st_contended_once).1 = Ok tt /\
  List.filter (fun e => negb (is_read e)) (trace (_rebalance st_contended_once).2)
  = [EvCreate "/consumers/g/owners/t/1-1" "b" true false;
     EvLogRetry 4; EvSleep 1;
     EvCreate "/consumers/g/owners/t/1-1" "b" true false;
     EvConsumerNew (inner_consumer (topic_t 2) [part 1])] /\
  _partitions (self (_rebalance st_contended_once).2) = {[part 1]} /\
  nodes (world (_rebalance st_contended_once).2) !! "/consumers/g/owners/t/1-1"
  = Some "b".
Proof. decide_closed. Qed.


Lemma add_self_guard_witness :
  _get_participants st_joining = (Ok ["a"], (_get_participants st_joining).2) /\
  _id_path (self st_joining) = "/consumers/" +:+ _consumer_group (self st_joining) +:+ "/ids" /\
  (_add_self st_joining).1 = Ok tt /\
  trace (_add_self st_joining).2
  = [EvGetChildren "/consumers/g/ids"; EvGet "/consumers/g/ids/a";
     EvCreate "/consumers/g/ids/b" "t" true true] /\
  nodes (world (_add_self st_joining).2) !! "/consumers/g/ids/b" = Some "t".
Proof.
  assert (_get_participants st_joining
          = (Ok ["a"], (_get_participants st_joining).2)) as Hget by decide_closed.
  split; [exact Hget|]. split; [reflexivity|].
  rewrite (add_self_guard st_joining _ ["a"] Hget eq_refl).
  decide_closed.
Defined.

(** With as many participants as partitions nothing is created. *)
Example add_self_oversubscribed :
  let st := mkState (consumer_self "b" (topic_t 1) ∅ None) store_oversubscribed [] in
  (_add_self st).1 = Ok tt /\
  trace (_add_self st).2
  = [EvGetChildren "/consumers/g/ids"; EvGet "/consumers/g/ids/a"] /\
  nodes (world (_add_self st).2) = nodes store_oversubscribed.
Proof. decide_closed. Qed.

Lemma get_participants_spec_witness :
  (zk_get_children "/consumers/g/ids" (world st_race)).1 = Ok ["c"; "a"; "b"; "d"] /\
  (exists participants,
     _get_participants st_race
     = (Ok participants,
        mkState (self st_race) (mkStore (delete "/consumers/g/ids/c" (nodes (world st_race))) [])
          [EvGetChildren "/consumers/g/ids"; EvGet "/consumers/g/ids/c";
           EvGet "/consumers/g/ids/a"; EvGet "/consumers/g/ids/b";
           EvGet "/consumers/g/ids/d"]) /\
     participants = ["a"; "d"]) /\
  (_get_participants st_no_group).1 = Ok [].
Proof.
  split; [decide_closed|].
  destruct (get_participants_spec st_race) as [_ Hlist].
  destruct (get_participants_spec st_no_group) as [Hnone _].
  split.
  - destruct (Hlist ["c"; "a"; "b"; "d"]
                (zk_get_children "/consumers/g/ids" (world st_race)).2
                (observe "/consumers/g/ids" ["c"; "a"; "b"; "d"]
                   (zk_get_children "/consumers/g/ids" (world st_race)).2).1
                (observe "/consumers/g/ids" ["c"; "a"; "b"; "d"]
                   (zk_get_children "/consumers/g/ids" (world st_race)).2).2)
      as (participants & Hrun & Heq & _).
    + decide_closed.
    + decide_closed.
    + decide_closed.
    + exists participants. subst participants. split.
      * rewrite Hrun. decide_closed.
      * decide_closed.
  - rewrite (Hnone (zk_get_children "/consumers/g/ids" (world st_no_group)).2);
      [done|decide_closed].
Defined.

(** The first [create] of the batch succeeds and the second meets the
    node "a" holds: the store has the first node, the owned set has
    nothing. *)
Example add_partitions_half_done :
  let r := _add_partitions {[part 0; part 1]} st_half_free in
  r.1 = Raise NodeExistsError /\
  trace r.2 = [EvCreate "/consumers/g/owners/t/1-0" "b" true false;
               EvCreate "/consumers/g/owners/t/1-1" "b" true false] /\
  nodes (world r.2) !! "/consumers/g/owners/t/1-0" = Some "b" /\
  _partitions (self r.2) = ∅.
Proof. decide_closed. Qed.

(** * Further properties *)

(** ** The decider: outcome, sizes, order *)

(** Bytewise comparison of strings is transitive. *)
Lemma string_leb_trans (s1 s2 s3 : string) :
  String.leb s1 s2 = true -> String.leb s2 s3 = true -> String.leb s1 s3 = true.
Proof.
  unfold String.leb.
  assert (forall a b c : string,
            String.compare a b <> Gt -> String.compare b c <> Gt ->
            String.compare a c <> Gt) as Htrans.
  { induction a as [|x a IH]; intros [|y b] [|z c]; simpl; try done.
    unfold Ascii.compare.
    destruct (N.compare_spec (N_of_ascii x) (N_of_ascii y)) as [Hxy|Hxy|Hxy];
      destruct (N.compare_spec (N_of_ascii y) (N_of_ascii z)) as [Hyz|Hyz|Hyz];
      try done.
    - rewrite Hxy, Hyz, N.compare_refl. apply IH.
    - intros _ _. rewrite Hxy. by apply N.compare_lt_iff in Hyz as ->.
    - intros _ _. rewrite <- Hyz. by apply N.compare_lt_iff in Hxy as ->.
    - intros _ _.
      assert (N_of_ascii x < N_of_ascii z)%N as Hxz by lia.
      by apply N.compare_lt_iff in Hxz as ->. }
  intros H12 H23.
  specialize (Htrans s1 s2 s3).
  destruct (String.compare s1 s2), (String.compare s2 s3),
    (String.compare s1 s3); try done; exfalso; by apply Htrans.
Qed.

Lemma key_le_trans {A} (key : A -> string) : Transitive (key_le key).
Proof. intros x y z. unfold key_le. apply string_leb_trans. Qed.

(** Two lists with the same items, whose keys are pairwise distinct, sort
    to the same list. *)
Lemma sort_by_key_perm_eq {A} (key : A -> string) (l1 l2 : list A) :
  l1 ≡ₚ l2 -> NoDup (key <$> l1) ->
  sort_by_key key l1 = sort_by_key key l2.
Proof.
  intros Hperm Hnd.
  pose proof (key_le_trans key) as Htr.
  apply (StronglySorted_unique_strong (key_le key)).
  - intros x1 x2 H1 H2 H12 H21.
    rewrite sort_by_key_perm in H1. rewrite sort_by_key_perm, <- Hperm in H2.
    pose proof (String.leb_antisym _ _ H12 H21) as Hkey.
    apply list_elem_of_lookup in H1 as [i1 Hi1].
    apply list_elem_of_lookup in H2 as [i2 Hi2].
    assert (i1 = i2) as ->.
    { eapply NoDup_lookup; [exact Hnd|..].
      - by rewrite list_lookup_fmap, Hi1.
      - by rewrite list_lookup_fmap, Hi2, Hkey. }
    congruence.
  - apply Sorted_StronglySorted; [done|apply sort_by_key_sorted].
  - apply Sorted_StronglySorted; [done|apply sort_by_key_sorted].
  - by rewrite !sort_by_key_perm.
Qed.

(** The number of partitions in the share of the peer at index [i]. *)
Lemma share_size t participants (i : nat) :
  topic_wf t -> (i < length participants)%nat ->
  Z.of_nat (size (share t participants i))
  = range_count (len (all_partitions t)) (len participants) (Z.of_nat i).
Proof.
  intros Hwf Hi.
  assert (NoDup (all_partitions t)) as Hall.
  { rewrite all_partitions_perm. by apply topic_wf_NoDup. }
  set (n := len (all_partitions t)). set (m := len participants).
  assert (0 <= n) as Hn by (unfold n, len; lia).
  assert (0 < m) as Hm by (unfold m, len; lia).
  pose proof (range_start_nonneg n m (Z.of_nat i) Hm Hn ltac:(lia)) as Hs0.
  pose proof (range_count_nonneg n m (Z.of_nat i) Hm Hn) as Hc0.
  pose proof (range_start_mono n m (Z.of_nat i + 1) m Hm Hn
                ltac:(unfold m, len; lia)) as Hmono.
  rewrite range_start_succ, range_start_last in Hmono by lia.
  unfold share. fold n m.
  rewrite size_list_to_set.
  2:{ unfold slice. eapply sublist_NoDup; [|apply sublist_take].
      eapply sublist_NoDup; [exact Hall|apply sublist_drop]. }
  unfold slice. rewrite length_take, length_drop.
  fold (len (all_partitions t)). unfold len in n. unfold n in *. lia.
Qed.

Lemma decide_partitions_raises_value_error self_id t participants e :
  decide_partitions self_id t participants = Raise e -> e = ValueError.
Proof.
  unfold decide_partitions.
  destruct (index self_id participants) as [idx|e'] eqn:E.
  - apply index_lookup in E as [Hi _].
    destruct (Z.eqb_spec (len participants) 0); [lia|done].
  - apply index_raise in E as [-> _]. by intros [= <-].
Qed.

(** X1. The decider returns a set iff [self._id] is among the
    participants, and then a subset of the topic's partitions; otherwise
    [participants.index] raises [ValueError] - also for the empty list: the
    division by [len(participants)] is never reached with a zero. *)
Theorem decide_partitions_outcome (self_id : string) (t : Topic)
    (participants : list string) :
  match decide_partitions self_id t participants with
  | Ok s => self_id ∈ participants /\
            s ⊆ list_to_set (dict_values (topic_partitions t))
  | Raise e => e = ValueError /\ self_id ∉ participants
  end.
Proof.
  destruct (index self_id participants) as [idx|e] eqn:E.
  - rewrite (decide_partitions_at _ _ _ _ E).
    pose proof E as [Hidx Hl]%index_lookup. split.
    + by eapply list_elem_of_lookup_2.
    + intros p Hp. rewrite elem_of_list_to_set in Hp.
      apply elem_of_slice in Hp as (k & _ & Hk).
      2:{ apply range_start_nonneg; unfold len in *; lia. }
      rewrite elem_of_list_to_set, <- all_partitions_perm.
      by eapply list_elem_of_lookup_2.
  - pose proof E as [-> Hn]%index_raise.
    by rewrite decide_partitions_absent.
Qed.

Lemma decide_partitions_peer_share (t : Topic) (participants : list string)
    (i : nat) (peer : string) :
  topic_wf t ->
  NoDup participants ->
  participants !! i = Some peer ->
  decide_partitions peer t participants = Ok (share t participants i) /\
  Z.of_nat (size (share t participants i))
  = Z.of_nat (size (topic_partitions t)) / len participants
    + (if Z.of_nat i <? Z.of_nat (size (topic_partitions t)) mod len participants
       then 1 else 0).
Proof.
  intros Hwf Hnd Hi. split.
  - apply decide_partitions_at. by apply index_NoDup.
  - rewrite share_size, len_all_partitions; [done..|].
    by eapply lookup_lt_Some.
Qed.

(** X2. The peer at index [i] gets [n / m] partitions, and one more when
    [i < n mod m]. *)
Theorem decide_partitions_share_size (t : Topic) (participants : list string)
    (i : nat) (peer : string) :
  topic_wf t ->
  NoDup participants ->
  participants !! i = Some peer ->
  let n := Z.of_nat (size (topic_partitions t)) in
  let m := len participants in
  exists s, decide_partitions peer t participants = Ok s /\
            Z.of_nat (size s) = n / m + (if Z.of_nat i <? n mod m then 1 else 0).
Proof.
  intros Hwf Hnd Hi. simpl.
  exists (share t participants i).
  by apply decide_partitions_peer_share.
Qed.

(** X3. Any two shares decided over the same peer list differ in size by
    at most one. *)
Theorem decide_partitions_balanced (t : Topic) (participants : list string)
    (peer1 peer2 : string) (s1 s2 : gset Partition) :
  topic_wf t ->
  decide_partitions peer1 t participants = Ok s1 ->
  decide_partitions peer2 t participants = Ok s2 ->
  -1 <= Z.of_nat (size s1) - Z.of_nat (size s2) <= 1.
Proof.
  intros Hwf H1 H2.
  assert (forall peer s, decide_partitions peer t participants = Ok s ->
            exists i, Z.of_nat (size s)
                      = range_count (len (all_partitions t)) (len participants) i)
    as Hsize.
  { intros peer s Hdec.
    destruct (index peer participants) as [idx|e] eqn:E.
    - pose proof E as [Hidx _]%index_lookup.
      assert (idx = Z.of_nat (Z.to_nat idx)) as Hk by lia.
      rewrite Hk in E.
      rewrite (decide_partitions_at _ _ _ _ E) in Hdec. injection Hdec as <-.
      exists (Z.of_nat (Z.to_nat idx)).
      apply share_size; [done|]. unfold len in Hidx. lia.
    - apply index_raise in E as [_ Hn].
      by rewrite decide_partitions_absent in Hdec. }
  destruct (Hsize _ _ H1) as [i1 ->], (Hsize _ _ H2) as [i2 ->].
  unfold range_count.
  destruct (i1 <? _), (i2 <? _); lia.
Qed.

(** X4. With more peers than partitions, each of the first [n] peers gets
    one partition and every later peer gets the empty set. *)
Theorem decide_partitions_more_peers (t : Topic) (participants : list string)
    (i : nat) (peer : string) :
  topic_wf t ->
  NoDup participants ->
  participants !! i = Some peer ->
  Z.of_nat (size (topic_partitions t)) < len participants ->
  exists s, decide_partitions peer t participants = Ok s /\
            size s = (if bool_decide (i < size (topic_partitions t))%nat
                      then 1 else 0)%nat /\
            ((size (topic_partitions t) <= i)%nat -> s = ∅).
Proof.
  intros Hwf Hnd Hi Hlt.
  destruct (decide_partitions_peer_share t participants i peer Hwf Hnd Hi)
    as (Hdec & Hsize).
  exists (share t participants i). split; [done|].
  rewrite Z.div_small, Z.mod_small in Hsize by lia.
  assert (size (share t participants i) = if bool_decide (i < size (topic_partitions t))%nat
                   then 1%nat else 0%nat) as Hs.
  { case_bool_decide; destruct (Z.ltb_spec (Z.of_nat i)
        (Z.of_nat (size (topic_partitions t)))); lia. }
  split; [done|]. intros Hge.
  rewrite bool_decide_eq_false_2 in Hs by lia.
  by apply leibniz_equiv, size_empty_iff.
Qed.

(** X5. Sorting by [p_to_str] makes the list the decider slices, and so
    its result, independent of the order in which the dict gives the
    partitions, as long as their keys are distinct. *)
Theorem all_partitions_order_independent (t : Topic) (values : list Partition) :
  values ≡ₚ dict_values (topic_partitions t) ->
  NoDup (p_to_str <$> values) ->
  sort_by_key p_to_str values = all_partitions t.
Proof. intros Hperm Hnd. by apply sort_by_key_perm_eq. Qed.

(** ** The pass as a whole *)

Lemma prefix_events_pass s (evs full : list Event) :
  evs `prefix_of` full -> Forall (ownership_write s) full ->
  Forall (pass_event s) evs.
Proof.
  intros Hpre Hfull. eapply Forall_impl.
  - eapply Forall_prefix_of; [exact Hpre|exact Hfull].
  - intros e He. right. by right.
Qed.

Lemma delete_events_ownership s ps : Forall (ownership_write s) (delete_events s ps).
Proof.
  unfold delete_events. apply Forall_fmap, Forall_forall. intros p _.
  left. by exists p.
Qed.

Lemma create_events_ownership s ps : Forall (ownership_write s) (create_events s ps).
Proof.
  unfold create_events. apply Forall_fmap, Forall_forall. intros p _.
  right. by exists p.
Qed.

Section Pass.
Context {W : Type} `{World W}.

Lemma rebalance_attempt_events i participants new (st : State W) :
  exists evs ps,
    trace (rebalance_attempt i participants new st).2 = trace st ++ evs /\
    Forall (pass_event (self st)) evs /\
    self (rebalance_attempt i participants new st).2 = with_partitions ps (self st).
Proof.
  destruct (rebalance_attempt_trace i participants new st)
    as (targets & reads & dels & crs & ps & Htr & Hr & _ & Hd & Hc & _ & Hself).
  eexists _, ps. split; [exact Htr|]. split; [|exact Hself].
  rewrite !Forall_app. split; [|split; [|split]].
  - destruct (0 <? i); repeat constructor; right; by left.
  - clear -Hr. induction reads as [|e l IH]; simpl in *; [constructor|].
    apply andb_true_iff in Hr as [He Hl]. constructor; [by left|by apply IH].
  - eapply prefix_events_pass; [exact Hd|apply delete_events_ownership].
  - eapply prefix_events_pass; [exact Hc|apply create_events_ownership].
Qed.

Lemma rebalance_loop_events indices participants new (st : State W) :
  exists evs ps,
    trace (rebalance_loop indices participants new st).2 = trace st ++ evs /\
    Forall (pass_event (self st)) evs /\
    self (rebalance_loop indices participants new st).2 = with_partitions ps (self st).
Proof.
  revert participants new st.
  induction indices as [|i rest IH]; intros participants new st; simpl.
  - exists [], (_partitions (self st)). munfold.
    by rewrite app_nil_r, with_partitions_id.
  - destruct (rebalance_attempt_events i participants new st)
      as (evs & ps & Htr & Hall & Hself).
    munfold.
    destruct (rebalance_attempt i participants new st)
      as [[[[fl participants'] new']|e] st1]; simpl in *.
    + destruct fl.
      * by exists evs, ps.
      * destruct (IH participants' new' st1) as (evs' & ps' & Htr' & Hall' & Hself').
        exists (evs ++ evs'), ps'.
        rewrite Htr', Htr, Hself', Hself, <- app_assoc.
        split; [done|]. split; [|done].
        apply Forall_app. split; [done|]. by rewrite Hself in Hall'.
    + by exists evs, ps.
Qed.

(** The whole of [_rebalance]: what it leaves in [self] and in the
    trace, by outcome. *)
Lemma rebalance_outcome (st : State W) :
  exists evs ps,
    Forall (pass_event (self st)) evs /\
    match (_rebalance st).1 with
    | Ok _ =>
        self (_rebalance st).2
        = with_consumer (Some (consumer_of (with_partitions ps (self st))))
            (with_partitions ps (self st)) /\
        trace (_rebalance st).2
        = trace st ++ evs ++ stop_events (self st)
            ++ [EvConsumerNew (consumer_of (with_partitions ps (self st)))]
    | Raise _ =>
        self (_rebalance st).2 = with_partitions ps (self st) /\
        trace (_rebalance st).2 = trace st ++ evs
    end.
Proof.
  unfold _rebalance, _decide_partitions. munfold.
  destruct (get_participants_frame st) as (Hs & reads & Ht & Hr).
  assert (Forall (pass_event (self st)) reads) as Hreads.
  { clear -Hr. induction reads as [|e l IH]; simpl in *; [constructor|].
    apply andb_true_iff in Hr as [He Hl]. constructor; [by left|by apply IH]. }
  destruct (_get_participants st) as [[participants|e] st1]; simpl in *.
  2:{ exists reads, (_partitions (self st)).
      by rewrite with_partitions_id, Hs. }
  destruct (decide_partitions _ _ participants) as [new|e]; simpl.
  2:{ exists reads, (_partitions (self st)).
      by rewrite with_partitions_id, Hs. }
  destruct (rebalance_loop_events (xrange (_rebalance_retries (self st1)))
              participants new st1) as (evs & ps & Htr & Hall & Hself).
  exists (reads ++ evs), ps.
  split; [apply Forall_app; split; [done|by rewrite <- Hs]|].
  destruct (rebalance_loop _ participants new st1) as [[[]|e] st2]; simpl in *.
  - rewrite setup_internal_consumer_run. simpl.
    rewrite Hself, Hs, Htr, Ht, <- !app_assoc. done.
  - by rewrite Hself, Hs, Htr, Ht, <- !app_assoc.
Qed.

(** The part of [_rebalance] before the consumer is set up. *)
Lemma rebalance_until_setup_events (st : State W) :
  exists evs ps,
    trace (rebalance_until_setup st).2 = trace st ++ evs /\
    Forall (pass_event (self st)) evs /\
    self (rebalance_until_setup st).2 = with_partitions ps (self st).
Proof.
  unfold rebalance_until_setup, _decide_partitions. munfold.
  destruct (get_participants_frame st) as (Hs & reads & Ht & Hr).
  assert (Forall (pass_event (self st)) reads) as Hreads.
  { clear -Hr. induction reads as [|e l IH]; simpl in *; [constructor|].
    apply andb_true_iff in Hr as [He Hl]. constructor; [by left|by apply IH]. }
  destruct (_get_participants st) as [[participants|e] st1]; simpl in *.
  2:{ exists reads, (_partitions (self st)).
      by rewrite with_partitions_id, Hs. }
  destruct (decide_partitions _ _ participants) as [new|e]; simpl.
  2:{ exists reads, (_partitions (self st)).
      by rewrite with_partitions_id, Hs. }
  destruct (rebalance_loop_events (xrange (_rebalance_retries (self st1)))
              participants new st1) as (evs & ps & Htr & Hall & Hself).
  exists (reads ++ evs), ps.
  rewrite Htr, Ht, Hself, Hs, <- app_assoc.
  split; [done|]. split; [|done].
  apply Forall_app. split; [done|]. by rewrite <- Hs.
Qed.

Lemma rebalance_until_setup_then (st : State W) :
  _rebalance st = (rebalance_until_setup;; _setup_internal_consumer) st.
Proof.
  unfold _rebalance, rebalance_until_setup, _decide_partitions. munfold.
  destruct (_get_participants st) as [[participants|e] st1]; simpl; [|done].
  destruct (decide_partitions _ _ participants) as [new|e]; simpl; [|done].
  by destruct (rebalance_loop _ participants new st1) as [[[]|e] st2].
Qed.

End Pass.

Section PassProperties.
Context {W : Type} `{World W}.

(** X6. [_get_participants] only reads: it leaves the object as it is
    and calls nothing but [get_children] and [get], whatever the store
    answers. *)
Theorem get_participants_read_only (st : State W) :
  self (_get_participants st).2 = self st /\
  exists evs, trace (_get_participants st).2 = trace st ++ evs /\
              forallb is_read evs = true.
Proof. apply get_participants_frame. Qed.

(** X7. After an attempt that ends the loop the owned set is the set
    decided in that attempt; after one that asks for a retry it is what was
    owned before and is still wanted: nothing acquired is recorded. *)
Theorem rebalance_attempt_owned (i : Z) (participants participants' : list string)
    (new new' : gset Partition) (fl : flow) (st st' : State W) :
  rebalance_attempt i participants new st = (Ok (fl, participants', new'), st') ->
  _partitions (self st')
  = match fl with
    | Break => new'
    | Continue => _partitions (self st) ∩ new'
    end.
Proof.
  assert (forall j p n (s s' : State W) f p' n', j <= 0 ->
            rebalance_attempt j p n s = (Ok (f, p', n'), s') ->
            _partitions (self s')
            = match f with Break => n' | Continue => _partitions (self s) ∩ n' end)
    as Hfirst.
  { intros j p n s s' f p' n' Hj Hrun.
    destruct (run_deletes (map (_path_from_partition (self s))
                (elements (_partitions (self s) ∖ n))) (world s))
      as [[[u|e] w1] k1] eqn:Hdel.
    - destruct (run_creates (_id (self s))
                  (map (_path_from_partition (self s))
                     (elements (n ∖ _partitions (self s)))) w1)
        as [[r2 w2] k2] eqn:Hcre.
      rewrite (rebalance_attempt_released _ _ _ _ _ _ _ _ _ _ Hj Hdel Hcre) in Hrun.
      destruct r2 as [[]|e]; [|destruct e]; simplify_eq; done.
    - rewrite (rebalance_attempt_release_fails _ _ _ _ _ _ _ Hj Hdel) in Hrun.
      done. }
  intros Hrun. destruct (Z.ltb_spec 0 i) as [Hi|Hi].
  - rewrite rebalance_attempt_retry in Hrun by done.
    match type of Hrun with context [_get_participants ?s] =>
      destruct (get_participants_frame s) as (Hs & _);
      destruct (_get_participants s) as [[ps|e] st2] end; [|done].
    simpl in Hs.
    destruct (decide_partitions _ _ ps) as [n2|e]; [|done].
    rewrite (Hfirst 0 _ _ _ _ _ _ _ ltac:(lia) Hrun). by rewrite Hs.
  - by eapply Hfirst.
Qed.

(** X8. When [_rebalance] returns, the inner consumer held is the one
    just constructed over the owned set, and its construction is the last
    thing that happened. *)
Theorem rebalance_ok_consumer (st st' : State W) :
  _rebalance st = (Ok tt, st') ->
  _consumer (self st') = Some (consumer_of (self st')) /\
  sc_partitions (consumer_of (self st')) = elements (_partitions (self st')) /\
  exists evs, trace st' = trace st ++ evs ++ [EvConsumerNew (consumer_of (self st'))].
Proof.
  intros Hrun.
  destruct (rebalance_outcome st) as (evs & ps & _ & Hout).
  rewrite Hrun in Hout. simpl in Hout. destruct Hout as [Hself Htr].
  rewrite Hself. split; [done|]. split; [done|].
  exists (evs ++ stop_events (self st)). by rewrite Htr, <- !app_assoc.
Qed.

(** X9. Everything [_rebalance] does before its last statement, the call
    of [_setup_internal_consumer], leaves the inner consumer alone whatever
    the outcome: no consumer is stopped or constructed, and of the object
    only the owned set may change. So an exception raised by a read, by the
    decider or in an attempt is raised by [_rebalance] with the inner
    consumer neither stopped nor replaced. *)
Theorem rebalance_until_setup_keeps_consumer (st : State W) :
  _rebalance st = (rebalance_until_setup;; _setup_internal_consumer) st /\
  self (rebalance_until_setup st).2
  = with_partitions (_partitions (self (rebalance_until_setup st).2)) (self st) /\
  (exists evs, trace (rebalance_until_setup st).2 = trace st ++ evs /\
               List.filter is_consumer_event evs = []) /\
  (forall e st', rebalance_until_setup st = (Raise e, st') ->
                 _rebalance st = (Raise e, st')).
Proof.
  destruct (rebalance_until_setup_events st) as (evs & ps & Htr & Hall & Hself).
  split; [apply rebalance_until_setup_then|].
  split; [by rewrite Hself|]. split.
  - exists evs. split; [done|]. apply filter_none.
    eapply Forall_impl; [exact Hall|].
    intros ev [Hev|[Hev|[[p ->]|[p ->]]]]; try done; by destruct ev.
  - intros e st' Hrun. rewrite rebalance_until_setup_then. munfold.
    by rewrite Hrun.
Qed.

(** X10. The only nodes a pass writes are ownership nodes of the topic:
    every [delete] is on the path of a partition, every [create] is on such
    a path with [self._id] as payload, ephemeral and without makepath. The
    member registry is only read. *)
Theorem rebalance_writes_ownership_only (st : State W) :
  exists evs,
    trace (_rebalance st).2 = trace st ++ evs /\
    Forall (fun e => pass_event (self st) e \/ is_consumer_event e = true) evs.
Proof.
  destruct (rebalance_outcome st) as (evs & ps & Hall & Hout).
  assert (Forall (fun e => pass_event (self st) e \/ is_consumer_event e = true) evs)
    as Hevs by (eapply Forall_impl; [exact Hall|by left]).
  destruct ((_rebalance st).1) as [u|e].
  - destruct Hout as [_ Htr]. eexists. split; [exact Htr|].
    rewrite !Forall_app. split; [done|]. split.
    + unfold stop_events.
      destruct (_consumer (self st)); [|constructor].
      constructor; [by right|constructor].
    + constructor; [by right|constructor].
  - destruct Hout as [_ Htr]. by exists evs.
Qed.

(** X11. Contention is never passed on: in a store whose reads and
    deletions do not answer [NodeExistsError], [_rebalance] does not raise
    it, not even when every attempt has met it. *)
Theorem rebalance_contention_not_raised (st : State W) :
  only_create_clashes W ->
  (_rebalance st).1 <> Raise NodeExistsError.
Proof.
  intros Hworld.
  assert (forall ids acc (s : State W),
            (get_participants_loop ids acc s).1 <> Raise NodeExistsError) as Hloop.
  { induction ids as [|id_ rest IH]; intros acc s; simpl; [done|].
    munfold.
    destruct (Hworld (_id_path (self s) +:+ "/" +:+ id_) (world s)) as (_ & Hget & _).
    destruct (zk_get _ (world s)) as [[v|e] w1]; simpl in *.
    - destruct (decide (v = _)); apply IH.
    - destruct e; try done; apply IH. }
  assert (forall s : State W, (_get_participants s).1 <> Raise NodeExistsError)
    as Hget.
  { intros s. unfold _get_participants. munfold.
    destruct (Hworld (_id_path (self s)) (world s)) as (Hch & _ & _).
    destruct (zk_get_children _ (world s)) as [[ids|e] w1]; simpl in *.
    - specialize (Hloop ids [] (mkState (self s) w1
                                  (trace s ++ [EvGetChildren (_id_path (self s))]))).
      destruct (get_participants_loop ids [] _) as [[l|e] s2]; done.
    - destruct e; done. }
  assert (forall paths (w : W), (run_deletes paths w).1.1 <> Raise NodeExistsError)
    as Hdel.
  { induction paths as [|path rest IH]; intros w; simpl; [done|].
    destruct (Hworld path w) as (_ & _ & Hd).
    destruct (zk_delete path w) as [[u|e] w1]; simpl in *; [|done].
    specialize (IH w1). by destruct (run_deletes rest w1) as [[r w2] k]. }
  assert (forall i p n (s : State W), i <= 0 ->
            (rebalance_attempt i p n s).1 <> Raise NodeExistsError) as Hfirst.
  { intros i p n s Hi.
    specialize (Hdel (map (_path_from_partition (self s))
                        (elements (_partitions (self s) ∖ n))) (world s)).
    destruct (run_deletes _ (world s)) as [[[u|e] w1] k1] eqn:Ed; simpl in Hdel.
    - destruct (run_creates (_id (self s))
                  (map (_path_from_partition (self s))
                     (elements (n ∖ _partitions (self s)))) w1)
        as [[r2 w2] k2] eqn:Ec.
      rewrite (rebalance_attempt_released _ _ _ _ _ _ _ _ _ _ Hi Ed Ec). simpl.
      destruct r2 as [[]|e]; [done|]. by destruct e.
    - rewrite (rebalance_attempt_release_fails _ _ _ _ _ _ _ Hi Ed). simpl.
      intros [= ->]. by apply Hdel. }
  assert (forall i p n (s : State W),
            (rebalance_attempt i p n s).1 <> Raise NodeExistsError) as Hattempt.
  { intros i p n s. destruct (Z.ltb_spec 0 i) as [Hi|Hi]; [|by apply Hfirst].
    rewrite rebalance_attempt_retry by done.
    match goal with |- context [_get_participants ?s0] =>
      specialize (Hget s0); destruct (_get_participants s0) as [[ps|e] s2] end;
      [|simpl in *; intros [= ->]; by apply Hget].
    destruct (decide_partitions _ _ ps) as [n2|e] eqn:Hdec.
    - apply Hfirst. lia.
    - by apply decide_partitions_raises_value_error in Hdec as ->. }
  assert (forall indices p n (s : State W),
            (rebalance_loop indices p n s).1 <> Raise NodeExistsError) as Hpass.
  { induction indices as [|i rest IH]; intros p n s; simpl; [done|].
    munfold. specialize (Hattempt i p n s).
    destruct (rebalance_attempt i p n s) as [[[[fl p'] n']|e] s1]; simpl in *;
      [|intros [= ->]; by apply Hattempt].
    destruct fl; [done|apply IH]. }
  unfold _rebalance, _decide_partitions. munfold.
  specialize (Hget st).
  destruct (_get_participants st) as [[participants|e] st1]; simpl in *;
    [|intros [= ->]; by apply Hget].
  destruct (decide_partitions _ _ participants) as [new|e] eqn:Hdec; simpl.
  2:{ by apply decide_partitions_raises_value_error in Hdec as ->. }
  specialize (Hpass (xrange (_rebalance_retries (self st1))) participants new st1).
  destruct (rebalance_loop _ participants new st1) as [[[]|e] st2]; simpl in *;
    [|intros [= ->]; by apply Hpass].
  by rewrite setup_internal_consumer_run.
Qed.

End PassProperties.

Section Lifecycle.
Context {W : Type} `{World W}.

Lemma remove_partitions_loop_frame l (st : State W) :
  self (remove_partitions_loop l st).2 = self st.
Proof.
  revert st. induction l as [|p rest IH]; intros st; simpl; [done|].
  munfold. destruct (decide (p ∈ _partitions (self st))) as [Hin|Hout]; simpl;
    [|done].
  destruct (zk_delete _ (world st)) as [[u|e] w1]; simpl; [|done].
  by rewrite IH.
Qed.

Lemma remove_partitions_loop_not_owned l (st : State W) p :
  p ∈ l -> p ∉ _partitions (self st) ->
  is_Ok (remove_partitions_loop l st).1 = false.
Proof.
  revert st. induction l as [|q rest IH]; intros st Hin Hp; simpl.
  - by apply elem_of_nil in Hin.
  - munfold. destruct (decide (q ∈ _partitions (self st))) as [Hq|Hq]; simpl;
      [|done].
    destruct (zk_delete _ (world st)) as [[u|e] w1]; simpl; [|done].
    apply IH; [|done].
    apply elem_of_cons in Hin as [->|Hin]; done.
Qed.

(** X12. [_remove_partitions] on a set with a partition that is not owned
    does not complete - the [assert] stops it, unless an earlier [delete]
    has failed - and the owned set stays as it was. *)
Theorem remove_partitions_requires_owned (partitions : gset Partition)
    (st : State W) (p : Partition) :
  p ∈ partitions ->
  p ∉ _partitions (self st) ->
  is_Ok (_remove_partitions partitions st).1 = false /\
  self (_remove_partitions partitions st).2 = self st.
Proof.
  intros Hin Hp. unfold _remove_partitions. munfold.
  pose proof (remove_partitions_loop_not_owned (elements partitions) st p
                ltac:(by apply elem_of_elements) Hp) as Hnot.
  pose proof (remove_partitions_loop_frame (elements partitions) st) as Hself.
  destruct (remove_partitions_loop (elements partitions) st) as [[u|e] st1];
    simpl in *; done.
Qed.

Lemma add_self_frame (st : State W) : self (_add_self st).2 = self st.
Proof.
  unfold _add_self. munfold.
  destruct (get_participants_frame st) as (Hs & _).
  destruct (_get_participants st) as [[participants|e] st1]; simpl in *; [|done].
  destruct (_ <=? _); simpl; [done|].
  by destruct (zk_create _ _ _ _ (world st1)).
Qed.

Lemma set_watches_frame (st : State W) :
  self (_set_watches st).2
  = with_setting_watches (negb (is_Ok (_set_watches st).1)) (self st) /\
  exists k : nat,
    trace (_set_watches st).2
    = trace st ++ take k [EvChildrenWatch "/brokers/ids";
                          EvChildrenWatch "/brokers/topics";
                          EvChildrenWatch (_id_path (self st))].
Proof.
  unfold _set_watches, ChildrenWatch, _brokers_changed, _topics_changed,
    _consumers_changed. munfold.
  destruct (zk_children_watch "/brokers/ids" (world st)) as [[c1|e1] w1]; simpl.
  - destruct (zk_children_watch "/brokers/topics" w1) as [[c2|e2] w2]; simpl.
    + destruct (zk_children_watch (_id_path (self st)) w2) as [[c3|e3] w3]; simpl.
      * split; [done|]. exists 3%nat. simpl. by rewrite <- !app_assoc.
      * split; [done|]. exists 3%nat. simpl. by rewrite <- !app_assoc.
    + split; [done|]. exists 2%nat. simpl. by rewrite <- !app_assoc.
  - destruct e1; simpl; (split; [done|]); by exists 1%nat.
Qed.

(** X13. While [_set_watches] installs the three watches, the callbacks
    they fire at once do not rebalance: only the watches are set, and the
    owned set and the inner consumer stay. [_setting_watches] is cleared at
    the end, but stays set when a watch fails; a missing [/brokers/ids]
    is reported as the exception about the broker path. *)
Theorem set_watches_guard (st : State W) :
  self (_set_watches st).2
  = with_setting_watches (negb (is_Ok (_set_watches st).1)) (self st) /\
  (exists k : nat,
     trace (_set_watches st).2
     = trace st ++ take k [EvChildrenWatch "/brokers/ids";
                           EvChildrenWatch "/brokers/topics";
                           EvChildrenWatch (_id_path (self st))]) /\
  ((zk_children_watch "/brokers/ids" (world st)).1 = Raise NoNodeException ->
   (_set_watches st).1 = Raise broker_path_missing).
Proof.
  destruct (set_watches_frame st) as [Hself Htr].
  split; [done|]. split; [done|].
  unfold _set_watches, ChildrenWatch. munfold.
  destruct (zk_children_watch "/brokers/ids" (world st)) as [[c1|e1] w1]; simpl;
    [done|].
  by intros [= ->].
Qed.

(** X14. When the constructor returns, the object is ready: an inner
    consumer is held and it is over the owned set, the watch guard is
    cleared, and the identity, topic and paths are the ones given. *)
Theorem init_ok_ready (topic : Topic) (cluster : Cluster)
    (consumer_group : string) (auto_commit_enable : bool)
    (auto_commit_interval_ms socket_timeout_ms : Z) (fresh_id : string)
    (w : W) (st' : State W) :
  __init__ topic cluster consumer_group auto_commit_enable
    auto_commit_interval_ms socket_timeout_ms fresh_id w = (Ok tt, st') ->
  _consumer (self st') = Some (consumer_of (self st')) /\
  _setting_watches (self st') = false /\
  _id (self st') = fresh_id /\
  _topic (self st') = topic /\
  _topic_path (self st')
  = "/consumers/" +:+ consumer_group +:+ "/owners/" +:+ topic_name topic /\
  _id_path (self st') = "/consumers/" +:+ consumer_group +:+ "/ids".
Proof.
  unfold __init__. munfold.
  destruct (zk_ensure_path _ w) as [[u|e] w1]; simpl; [|done].
  match goal with |- context [_add_self ?s] =>
    pose proof (add_self_frame s) as Hadd;
    destruct (_add_self s) as [[u1|e] st1] end; simpl in *; [|done].
  destruct (set_watches_frame st1) as [Hset _].
  destruct (_set_watches st1) as [[u2|e] st2]; simpl in *; [|done].
  destruct (rebalance_outcome st2) as (evs & ps & _ & Hout).
  intros Hrun. rewrite Hrun in Hout. simpl in Hout. destruct Hout as [-> _].
  rewrite Hset, Hadd. done.
Qed.

End Lifecycle.

(** ** Runs of the further properties *)

Lemma store_only_create_clashes : only_create_clashes Store.
Proof.
  intros path w. simpl.
  unfold store_get_children, store_get, store_delete.
  destruct (nodes w !! path); done.
Qed.

Lemma decide_partitions_share_size_witness :
  exists s, decide_partitions "a" (topic_t 7) ["a"; "b"; "c"] = Ok s /\
            Z.of_nat (size s) = 3.
Proof.
  assert (NoDup ["a"; "b"; "c"]) as Hnd by decide_closed.
  pose proof (decide_partitions_share_size (topic_t 7) ["a"; "b"; "c"] 0 "a"
                (topic_t_wf 7) Hnd eq_refl) as Hx.
  cbv zeta in Hx. destruct Hx as (s & Hs & Hsize).
  exists s. split; [exact Hs|]. rewrite Hsize. decide_closed.
Defined.

Lemma decide_partitions_balanced_witness :
  decide_partitions "a" (topic_t 7) ["a"; "b"; "c"]
  = Ok {[part 0; part 1; part 2]} /\
  decide_partitions "c" (topic_t 7) ["a"; "b"; "c"] = Ok {[part 5; part 6]} /\
  -1 <= Z.of_nat (size ({[part 0; part 1; part 2]} : gset Partition))
        - Z.of_nat (size ({[part 5; part 6]} : gset Partition)) <= 1.
Proof.
  assert (decide_partitions "a" (topic_t 7) ["a"; "b"; "c"]
          = Ok {[part 0; part 1; part 2]}) as H1 by decide_closed.
  assert (decide_partitions "c" (topic_t 7) ["a"; "b"; "c"]
          = Ok {[part 5; part 6]}) as H2 by decide_closed.
  split; [exact H1|]. split; [exact H2|].
  apply (decide_partitions_balanced (topic_t 7) ["a"; "b"; "c"] "a" "c" _ _
           (topic_t_wf 7) H1 H2).
Defined.

Lemma decide_partitions_more_peers_witness :
  exists s, decide_partitions "d" (topic_t 2) ["a"; "b"; "c"; "d"] = Ok s /\
            s = ∅.
Proof.
  assert (NoDup ["a"; "b"; "c"; "d"]) as Hnd by decide_closed.
  assert (Z.of_nat (size (topic_partitions (topic_t 2)))
          < len ["a"; "b"; "c"; "d"]) as Hlt by decide_closed.
  destruct (decide_partitions_more_peers (topic_t 2) ["a"; "b"; "c"; "d"] 3 "d"
              (topic_t_wf 2) Hnd eq_refl Hlt) as (s & Hs & _ & Hempty).
  exists s. split; [exact Hs|]. apply Hempty. decide_closed.
Defined.

Lemma all_partitions_order_independent_witness :
  sort_by_key p_to_str (reverse (dict_values (topic_partitions (topic_t 3))))
  = all_partitions (topic_t 3).
Proof.
  apply all_partitions_order_independent.
  - apply reverse_Permutation.
  - decide_closed.
Defined.

Lemma rebalance_attempt_owned_witness :
  rebalance_attempt 0 ["a"; "b"] {[part 1]} st_contended
  = (Ok (Continue, ["a"; "b"], {[part 1]}),
     (rebalance_attempt 0 ["a"; "b"] {[part 1]} st_contended).2) /\
  _partitions (self (rebalance_attempt 0 ["a"; "b"] {[part 1]} st_contended).2)
  = _partitions (self st_contended) ∩ {[part 1]}.
Proof.
  assert (rebalance_attempt 0 ["a"; "b"] {[part 1]} st_contended
          = (Ok (Continue, ["a"; "b"], {[part 1]}),
             (rebalance_attempt 0 ["a"; "b"] {[part 1]} st_contended).2))
    as Hrun by decide_closed.
  split; [exact Hrun|].
  apply (rebalance_attempt_owned 0 ["a"; "b"] ["a"; "b"] {[part 1]} {[part 1]}
           Continue st_contended _ Hrun).
Defined.

Lemma rebalance_ok_consumer_witness :
  _rebalance st_settled = (Ok tt, (_rebalance st_settled).2) /\
  _consumer (self (_rebalance st_settled).2)
  = Some (consumer_of (self (_rebalance st_settled).2)).
Proof.
  assert (_rebalance st_settled = (Ok tt, (_rebalance st_settled).2)) as Hrun
    by decide_closed.
  split; [exact Hrun|].
  apply (rebalance_ok_consumer st_settled _ Hrun).
Defined.

Lemma rebalance_until_setup_keeps_consumer_witness :
  rebalance_until_setup st_node_gone
  = (Raise NoNodeException, (rebalance_until_setup st_node_gone).2) /\
  _rebalance st_node_gone
  = (Raise NoNodeException, (rebalance_until_setup st_node_gone).2) /\
  _consumer (self (rebalance_until_setup st_node_gone).2)
  = _consumer (self st_node_gone).
Proof.
  assert (rebalance_until_setup st_node_gone
          = (Raise NoNodeException, (rebalance_until_setup st_node_gone).2))
    as Hrun by decide_closed.
  destruct (rebalance_until_setup_keeps_consumer st_node_gone)
    as (_ & Hself & _ & Hraise).
  split; [exact Hrun|]. split; [exact (Hraise _ _ Hrun)|].
  rewrite Hself. reflexivity.
Defined.

Lemma rebalance_contention_not_raised_witness :
  (_rebalance st_contended).1 <> Raise NodeExistsError.
Proof.
  apply rebalance_contention_not_raised, store_only_create_clashes.
Defined.

Lemma remove_partitions_requires_owned_witness :
  part 5 ∈ ({[part 5]} : gset Partition) /\
  (part 5 ∉ _partitions (self st_settled)) /\
  (_remove_partitions {[part 5]} st_settled).1 = Raise AssertionError /\
  self (_remove_partitions {[part 5]} st_settled).2 = self st_settled.
Proof.
  assert (part 5 ∈ ({[part 5]} : gset Partition)) as Hin by decide_closed.
  assert (part 5 ∉ _partitions (self st_settled)) as Hout by decide_closed.
  split; [exact Hin|]. split; [exact Hout|].
  split; [decide_closed|].
  apply (remove_partitions_requires_owned {[part 5]} st_settled (part 5) Hin Hout).
Defined.

Lemma set_watches_guard_witness :
  (zk_children_watch "/brokers/ids" (world st_no_group)).1 = Raise NoNodeException /\
  (_set_watches st_no_group).1 = Raise broker_path_missing /\
  _setting_watches (self (_set_watches st_no_group).2) = true.
Proof.
  assert ((zk_children_watch "/brokers/ids" (world st_no_group)).1
          = Raise NoNodeException) as Hgone by decide_closed.
  split; [exact Hgone|].
  destruct (set_watches_guard st_no_group) as (Hself & _ & Hraise).
  split; [by apply Hraise|].
  rewrite Hself, (Hraise Hgone). reflexivity.
Defined.

Lemma init_ok_ready_witness :
  let r := __init__ (topic_t 2) (ClusterHandle "k") "g" false 60000 30000 "a"
             (store_of [] []) in
  r = (Ok tt, r.2) /\
  _consumer (self r.2) = Some (consumer_of (self r.2)) /\
  _setting_watches (self r.2) = false /\
  _partitions (self r.2) = {[part 0; part 1]}.
Proof.
  intros r.
  assert (r = (Ok tt, r.2)) as Hrun by (subst r; decide_closed).
  split; [exact Hrun|].
  destruct (init_ok_ready _ _ _ _ _ _ _ _ _ Hrun) as (Hc & Hw & _).
  split; [exact Hc|]. split; [exact Hw|].
  subst r. decide_closed.
Defined.
